(** * vercel-native-ssr: the route-rendering pipeline of [src/index.js]

    A shallow embedding of the file-based server-side renderer and the
    properties its specification states about it.

    Conventions.
    - A JavaScript string is a [string]: a sequence of code units, here the
      units below 256.  All markers, prefixes and suffixes the source tests
      for are ASCII.
    - An asynchronous function is a state transformer returning an [outcome]:
      its promise fulfils, rejects, or never settles.
    - What the source imports (the file system, [path], the JavaScript engine
      behind [new Function], Handlebars) is the [Platform] interface. *)

From Stdlib Require Import ZArith Ascii String Lia.
From Stdlib Require Import DecimalString.
From stdpp Require Import gmap strings list.

Local Open Scope Z_scope.

(* ================================================================== *)
(** * String primitives of the language *)
(* ================================================================== *)

Module JsString.

(** [WhiteSpace] and [LineTerminator] code units below 256: what
    [String.prototype.trim] removes. *)
Definition isWhiteSpace (c : ascii) : bool :=
  match c with
  | "009" | "010" | "011" | "012" | "013" | " " | "160" => true
  | _ => false
  end%char.

(** [s.startsWith(p)] *)
Fixpoint startsWith (s p : string) {struct p} : bool :=
  match p with
  | EmptyString => true
  | String a p' =>
      match s with
      | EmptyString => false
      | String b s' => if Ascii.eqb a b then startsWith s' p' else false
      end
  end.

(** [s.slice(n)] for [0 <= n] *)
Fixpoint slice (s : string) (n : nat) {struct n} : string :=
  match n with
  | O => s
  | S n' => match s with EmptyString => EmptyString | String _ s' => slice s' n' end
  end.

(** [s.substring(0, n)] for [0 <= n] *)
Fixpoint substring (s : string) (n : nat) {struct n} : string :=
  match n with
  | O => EmptyString
  | S n' => match s with EmptyString => EmptyString | String a s' => String a (substring s' n') end
  end.

(** [s.endsWith(p)] *)
Definition endsWith (s p : string) : bool :=
  (String.length p <=? String.length s)%nat
  && startsWith (slice s (String.length s - String.length p)) p.

(** [s.indexOf(p)]: the first position at which [p] occurs, [-1] if none. *)
Fixpoint indexOf (s p : string) : Z :=
  if startsWith s p then 0
  else match s with
       | EmptyString => -1
       | String _ s' => let i := indexOf s' p in if i =? -1 then -1 else i + 1
       end.

(** [s.replace(p, r)] with a string pattern: the first occurrence only
    ([r] holds no [$] pattern in the source: it is empty). *)
Fixpoint replace (s p r : string) : string :=
  if startsWith s p then r +:+ slice s (String.length p)
  else match s with
       | EmptyString => EmptyString
       | String a s' => String a (replace s' p r)
       end.

Fixpoint trimStart (s : string) : string :=
  match s with
  | EmptyString => EmptyString
  | String a s' => if isWhiteSpace a then trimStart s' else s
  end.

Fixpoint trimEnd (s : string) : string :=
  match s with
  | EmptyString => EmptyString
  | String a s' =>
      match trimEnd s' with
      | EmptyString => if isWhiteSpace a then EmptyString else String a EmptyString
      | t => String a t
      end
  end.

(** [s.trim()] *)
Definition trim (s : string) : string := trimEnd (trimStart s).

(** [l.join(sep)] on an array of strings *)
Fixpoint Array_join (l : list string) (sep : string) : string :=
  match l with
  | [] => EmptyString
  | [x] => x
  | x :: l' => x +:+ sep +:+ Array_join l' sep
  end.

(** [s.lastIndexOf(".")], as a position when there is one *)
Fixpoint lastDot (s : string) : option nat :=
  match s with
  | EmptyString => None
  | String a s' =>
      match lastDot s' with
      | Some i => Some (S i)
      | None => if Ascii.eqb a "."%char then Some O else None
      end
  end.

End JsString.

(* ================================================================== *)
(** * The two regular expressions of the parser *)
(* ================================================================== *)

(** Both have the shape [/OPEN([\s\S]*?)CLOSE/] with literal [OPEN] and
    [CLOSE].  The matcher below is the backtracking search such an
    expression denotes: start positions are tried from the left; at a
    position the literal [OPEN] is matched, then the lazy group takes as few
    code units as possible before [CLOSE] matches. *)
Module Regex.
Import JsString.

(** [([\s\S]*?)CLOSE] anchored at the start of [s]: the capture. *)
Fixpoint lazy_until (close s : string) : option string :=
  if startsWith s close then Some EmptyString
  else match s with
       | EmptyString => None
       | String c s' => String c <$> lazy_until close s'
       end.

(** [OPEN([\s\S]*?)CLOSE] anchored at the start of [s]. *)
Definition match_here (open close s : string) : option string :=
  if startsWith s open then lazy_until close (slice s (String.length open))
  else None.

(** [s.match(/OPEN([\s\S]*?)CLOSE/)]: capture group 1 of the match, [None]
    for [null]. *)
Fixpoint match_between (open close s : string) : option string :=
  match match_here open close s with
  | Some m => Some m
  | None =>
      match s with
      | EmptyString => None
      | String _ s' => match_between open close s'
      end
  end.

End Regex.

(* ================================================================== *)
(** * Values, errors and promises *)
(* ================================================================== *)

Module Js.
Import JsString.

(** The values a route script can leave on [exports], return or throw:
    the primitives, arrays and plain objects with data properties.  A number
    is given by its text, as [Number::toString] writes it ([0], [42],
    [-7.5], [1e+21], [NaN]): the source never computes with numbers, it
    converts them to text and tests them.  Functions, symbols and objects
    with accessors are left out. *)
#[warnings="-register-all"]
Inductive jsval :=
  | VUndefined
  | VNull
  | VBool (b : bool)
  | VNum (text : string)
  | VStr (s : string)
  | VArr (items : list jsval)
  | VObj (fields : gmap string jsval).

(** An [Error] object: the source only ever reads [message] and [code]. *)
Record JsError := mkError { name : string; message : string; code : option string }.

Definition Error (msg : string) : JsError := mkError "Error" msg None.
Definition TypeError (msg : string) : JsError := mkError "TypeError" msg None.
Definition SyntaxError (msg : string) : JsError := mkError "SyntaxError" msg None.

(** [ToBoolean] *)
Definition truthy (v : jsval) : bool :=
  match v with
  | VUndefined | VNull => false
  | VBool b => b
  | VNum text => negb (String.eqb text "0" || String.eqb text "NaN")
  | VStr s => negb (String.eqb s "")
  | VArr _ | VObj _ => true
  end.

(** The key of an array index. *)
Definition decimal (n : Z) : string := NilZero.string_of_int (Z.to_int n).

(** [ToString], as a template literal applies it, when the conversion does
    not throw (see [converts]): an array is its elements joined by commas,
    [null] and [undefined] among them giving nothing; a plain object is what
    the inherited [toString] answers. *)
Fixpoint ToString (v : jsval) : string :=
  match v with
  | VUndefined => "undefined"
  | VNull => "null"
  | VBool true => "true"
  | VBool false => "false"
  | VNum text => text
  | VStr s => s
  | VArr items =>
      Array_join
        (List.map (fun item => match item with
                               | VUndefined | VNull => EmptyString
                               | _ => ToString item
                               end) items) ","
  | VObj _ => "[object Object]"
  end.

(** Whether the conversion to a string goes through.  It throws a
    [TypeError] for an object with a [toString] property of its own (a data
    property is not callable, and the inherited [valueOf] answers the object
    itself), and for an array holding such an object. *)
Fixpoint converts (v : jsval) : bool :=
  match v with
  | VArr items => forallb converts items
  | VObj fields => negb (bool_decide (is_Some (fields !! "toString")))
  | _ => true
  end.

Fixpoint indexed (i : nat) (s : string) : gmap string jsval :=
  match s with
  | EmptyString => ∅
  | String a s' => <[decimal (Z.of_nat i) := VStr (String a EmptyString)]> (indexed (S i) s')
  end.

Fixpoint items_from (i : nat) (items : list jsval) : gmap string jsval :=
  match items with
  | [] => ∅
  | item :: rest => <[decimal (Z.of_nat i) := item]> (items_from (S i) rest)
  end.

(** The own enumerable properties a spread [{ ...v }] copies. *)
Definition spread (v : jsval) : gmap string jsval :=
  match v with
  | VObj fields => fields
  | VArr items => items_from 0 items
  | VStr s => indexed 0 s
  | _ => ∅
  end.

(** What a [throw] or a rejection carries. *)
Inductive thrown :=
  | ThrownError (e : JsError)
  | ThrownValue (v : jsval).

(** Evaluating [error.message] inside a template literal: the text, or the
    [TypeError] of a property read on [null] or [undefined], or of a
    [message] that cannot be converted. *)
Definition message_of (error : thrown) : JsError + string :=
  match error with
  | ThrownError e => inr (message e)
  | ThrownValue VUndefined =>
      inl (TypeError "Cannot read properties of undefined (reading 'message')")
  | ThrownValue VNull =>
      inl (TypeError "Cannot read properties of null (reading 'message')")
  | ThrownValue (VObj fields) =>
      let value := default VUndefined (fields !! "message") in
      if converts value then inr (ToString value)
      else inl (TypeError "Cannot convert object to primitive value")
  | ThrownValue _ => inr "undefined"
  end.

(** How an awaited promise ends. *)
Inductive outcome (A : Type) :=
  | Fulfilled (a : A)
  | Rejected (e : JsError)
  | Pending.
Arguments Fulfilled {A} a.
Arguments Rejected {A} e.
Arguments Pending {A}.

(** The message of the [TypeError] for [x = ...] where [x] is a [const]
    binding (the wording of V8, the engine of Node). *)
Definition const_assignment_message : string := "Assignment to constant variable.".

End Js.
Export Js.

(* ================================================================== *)
(** * The request and response shapes of the hosting layer *)
(* ================================================================== *)

Inductive queryValue :=
  | QString (s : string)
  | QArray (segments : list string).

Record request := mkRequest {
  query : option (gmap string queryValue);
  url : option string;
  headers : gmap string string
}.

(** What the handler wrote on [res]: [setHeader('Content-Type', _)],
    [status(_)] and [send(_)]. *)
Record response := mkResponse {
  contentType : string;
  statusCode : Z;
  body : string
}.

(* ================================================================== *)
(** * Module state *)
(* ================================================================== *)

(** [partialsLoaded] (line 10) and the two things the module does to the
    outside: the calls of [Handlebars.registerPartial], oldest first, and the
    lines of [console.warn]. *)
Record state := mkState {
  partialsLoaded : bool;
  registerPartial_calls : list (string * string);
  warnings : list string
}.

Definition initial : state := mkState false [] [].

Definition M (A : Type) : Type := state -> outcome A * state.

Definition ret {A} (a : A) : M A := fun st => (Fulfilled a, st).
Definition throw {A} (e : JsError) : M A := fun st => (Rejected e, st).
Definition never {A} : M A := fun st => (Pending, st).

Definition bind {A B} (m : M A) (k : A -> M B) : M B :=
  fun st =>
    match m st with
    | (Fulfilled a, st') => k a st'
    | (Rejected e, st') => (Rejected e, st')
    | (Pending, st') => (Pending, st')
    end.

(** [try { m } catch (error) { h error }] *)
Definition try_catch {A} (m : M A) (h : JsError -> M A) : M A :=
  fun st =>
    match m st with
    | (Rejected e, st') => h e st'
    | r => r
    end.

Definition lift {A} (r : JsError + A) : M A :=
  match r with
  | inl e => throw e
  | inr a => ret a
  end.

Notation "x <- m ;; k" := (bind m (fun x => k))
  (at level 100, m at next level, right associativity).

(** A binding is declared [const] or [let]; assigning to it afterwards
    throws for the first and stores for the second. *)
Inductive declaration := Const | Let.

Definition assign {A} (d : declaration) (v : A) : M A :=
  match d with
  | Const => throw (TypeError const_assignment_message)
  | Let => ret v
  end.

(* ================================================================== *)
(** * What the module imports *)
(* ================================================================== *)

(** The value the wrapped script function returned. *)
Inductive returned :=
  | ReturnsExports               (* the [exports] object it was given *)
  | ReturnsValue (v : jsval).    (* anything else *)

(** What [new Function(...)] followed by the awaited call comes to. *)
Inductive script_outcome :=
  | SyntaxErr (e : JsError)
  | Fulfils (r : returned) (exports : gmap string jsval)
  | Rejects (error : thrown)
  | NeverSettles.

Class Platform := {
  (** [process.cwd()] *)
  cwd : string;
  (** [path.join] *)
  join : list string -> string;
  (** [fs/promises]: [readFile(path, 'utf-8')] and [readdir(path)] *)
  readFile : string -> JsError + string;
  readdir : string -> JsError + list string;
  (** The engine: [new Function(...names, body)] applied to the context whose
      [exports] is a fresh empty object and whose [req] is the argument,
      then awaited.  [Fulfils r e] gives the returned value and the fields
      of that [exports] object at the end. *)
  run_Function : string -> option request -> script_outcome;
  (** [Handlebars.compile(source)(data)] under the partials registered by
      the given calls *)
  Handlebars_compile : list (string * string) -> string -> gmap string jsval -> JsError + string
}.

(* ================================================================== *)
(** * [parseRouteFile] (lines 20-32) *)
(* ================================================================== *)

Record routeFile := mkRouteFile { script : string; template : string }.

Definition MalformedRouteFile : JsError :=
  Error "Route file must contain both <script> and <template> sections".

Definition parseRouteFile (content : string) : JsError + routeFile :=
  let scriptMatch := Regex.match_between "<script>" "</script>" content in
  let templateMatch := Regex.match_between "<template>" "</template>" content in
  match scriptMatch, templateMatch with
  | Some s, Some t => inr {| script := JsString.trim s; template := JsString.trim t |}
  | _, _ => inl MalformedRouteFile
  end.

(* ================================================================== *)
(** * [path.extname] and the partial's name (lines 89-97) *)
(* ================================================================== *)

(** [path.extname] on a directory entry (a name without separator): from the
    last dot on, unless that dot starts the name or the name is [..]. *)
Definition extname (file : string) : string :=
  match JsString.lastDot file with
  | None | Some O => ""
  | Some i => if String.eqb file ".." then "" else JsString.slice file i
  end.

Definition isPartialFile (file : string) : bool :=
  String.eqb (extname file) ".hbs" || String.eqb (extname file) ".html".

(** [file.replace(/\.(hbs|html)$/, '')] *)
Definition partialName (file : string) : string :=
  if JsString.endsWith file ".hbs"
  then JsString.substring file (String.length file - 4)
  else if JsString.endsWith file ".html"
  then JsString.substring file (String.length file - 5)
  else file.

(* ================================================================== *)
(** * Path resolution (lines 166-208) *)
(* ================================================================== *)

(** [req.query && req.query.path && Array.isArray(req.query.path) &&
    req.query.path.length > 0]: the segments when the test passes. *)
Definition catchAllSegments (req : request) : option (list string) :=
  match query req with
  | Some q =>
      match q !! "path" with
      | Some (QArray (s :: l)) => Some (s :: l)
      | _ => None
      end
  | None => None
  end.

(** Lines 174-195: the path of a URL string. *)
Definition pathOfUrl (url : string) : string :=
  let urlPath := url in
  let queryIndex := JsString.indexOf urlPath "?" in
  let urlPath :=
    if negb (queryIndex =? -1) then JsString.substring urlPath (Z.to_nat queryIndex)
    else urlPath in
  let urlPath :=
    if JsString.startsWith urlPath "/api/" then JsString.slice urlPath 5
    else if String.eqb urlPath "/api" then ""
    else urlPath in
  if JsString.startsWith urlPath "/" then JsString.slice urlPath 1 else urlPath.

Definition resolveRoutePath (req : request) : string :=
  let routePath :=
    match catchAllSegments req with
    | Some path => JsString.Array_join path "/"
    | None =>
        match url req with
        | Some u => if negb (String.eqb u "") then pathOfUrl u else ""
        | None => ""
        end
    end in
  if String.eqb routePath "" then "index.html"
  else if negb (JsString.endsWith routePath ".html") then routePath +:+ ".html"
  else routePath.

(* ================================================================== *)
(** * The pipeline *)
(* ================================================================== *)

Definition nl : string := String "010"%char EmptyString.

(** Lines 55-60: the body handed to [new Function]. *)
Definition functionBody (scriptCode : string) : string :=
  nl +:+ "      return (async () => {" +:+ nl +:+
  "        " +:+ scriptCode +:+ nl +:+
  "        return exports;" +:+ nl +:+
  "      })();" +:+ nl +:+
  "    ".

(** Lines 144-147. *)
Definition currentPath_of (routePath : string) : string :=
  let currentPath := "/" +:+ JsString.replace routePath ".html" "" in
  if String.eqb currentPath "/index" then "/" else currentPath.

(** [{ ...data, currentPath }] *)
Definition merge_currentPath (data : jsval) (currentPath : string) : gmap string jsval :=
  <["currentPath" := VStr currentPath]> (spread data).

Definition set_partialsLoaded (st : state) : state :=
  mkState true (registerPartial_calls st) (warnings st).

Definition registerPartial (partialName content : string) (st : state) : state :=
  mkState (partialsLoaded st) (registerPartial_calls st ++ [(partialName, content)]) (warnings st).

Definition console_warn (line : string) (st : state) : state :=
  mkState (partialsLoaded st) (registerPartial_calls st) (warnings st ++ [line]).

(** Lines 102-108: the [catch] around the directory scan.  It throws
    nothing itself, so the outer [catch] of lines 109-112 is never entered. *)
Definition partials_catch (error : JsError) (st : state) : state :=
  let st :=
    if bool_decide (code error = Some "ENOENT") then st
    else console_warn ("Warning: Could not load partials: " +:+ message error) st in
  set_partialsLoaded st.

Section Pipeline.
Context `{Platform}.

(** ** [executeScript] (lines 37-73) *)

(** Line 71, reached with whatever was thrown. *)
Definition executeScript_catch {A} (error : thrown) : M A :=
  match message_of error with
  | inr msg => throw (Error ("Error executing script: " +:+ msg))
  | inl e => throw e
  end.

Definition executeScript (scriptCode : string) (req : option request) : M jsval :=
  match run_Function (functionBody scriptCode) req with
  | Fulfils r exports =>
      let result := match r with ReturnsExports => VObj exports | ReturnsValue v => v end in
      ret (if truthy result then result else VObj ∅)
  | SyntaxErr e => executeScript_catch (ThrownError e)
  | Rejects error => executeScript_catch error
  | NeverSettles => never
  end.

(** ** [loadPartials] (lines 78-113) *)

Definition partialsDir : string := join [cwd; "partials"].

(** The [for] loop of lines 93-99 and line 101, run without interruption. *)
Fixpoint registerAll (hbsFiles : list string) (st : state) : state :=
  match hbsFiles with
  | [] => set_partialsLoaded st
  | file :: rest =>
      match readFile (join [partialsDir; file]) with
      | inl error => partials_catch error st
      | inr content => registerAll rest (registerPartial (partialName file) content st)
      end
  end.

Definition loadPartials : M unit :=
  fun st =>
    if partialsLoaded st then (Fulfilled tt, st)
    else
      match readdir partialsDir with
      | inl error => (Fulfilled tt, partials_catch error st)
      | inr files => (Fulfilled tt, registerAll (filter (fun file => isPartialFile file = true) files) st)
      end.

(** ** [renderTemplate] (lines 118-124) *)

Definition renderTemplate (templateSource : string) (data : gmap string jsval) : M string :=
  _ <- loadPartials ;;
  fun st => lift (Handlebars_compile (registerPartial_calls st) templateSource data) st.

(** ** [renderRoute] (lines 129-158) *)

(** [d] is how [data] is declared on line 140. *)
Definition renderRoute_declared (d : declaration) (routePath : string) (req : option request)
  : M string :=
  try_catch
    (content <- lift (readFile (join [cwd; "routes"; routePath])) ;;
     parsed <- lift (parseRouteFile content) ;;
     data <- executeScript (script parsed) req ;;
     let currentPath := currentPath_of routePath in
     data <- assign d (merge_currentPath data currentPath) ;;
     html <- renderTemplate (template parsed) data ;;
     ret html)
    (fun error =>
       throw (Error ("Failed to render route " +:+ routePath +:+ ": " +:+ message error))).

(** Line 140 reads [const data]. *)
Definition renderRoute : string -> option request -> M string :=
  renderRoute_declared Const.

(** ** [handler] (lines 163-220) *)

(** Lines 213-219: what is written on [res] once [renderRoute] settles;
    [None] when it never does. *)
Definition respond (r : outcome string * state) : option response * state :=
  match r with
  | (Fulfilled html, st') =>
      (Some {| contentType := "text/html; charset=utf-8"; statusCode := 200; body := html |}, st')
  | (Rejected error, st') =>
      (Some {| contentType := "text/plain; charset=utf-8"; statusCode := 500;
               body := "Error: " +:+ message error |}, st')
  | (Pending, st') => (None, st')
  end.

Definition handler_declared (d : declaration) (req : request) (st : state)
  : option response * state :=
  let routePath := resolveRoutePath req in
  respond (renderRoute_declared d routePath (Some req) st).

Definition handler : request -> state -> option response * state :=
  handler_declared Const.

(** ** Overlapping calls of [loadPartials] *)

(** Where a call of [loadPartials] is suspended. *)
Inductive loadPartials_point :=
  | AtEntry
  | AwaitReaddir
  | AwaitReadFile (file : string) (rest : list string)
  | Returned.

(** Top of the loop: the next [readFile] is started, or line 101 runs. *)
Definition next_file (hbsFiles : list string) (st : state) : loadPartials_point * state :=
  match hbsFiles with
  | [] => (Returned, set_partialsLoaded st)
  | file :: rest => (AwaitReadFile file rest, st)
  end.

(** One turn of the event loop given to a call: it runs from where it is
    suspended to its next [await] (or to its end). *)
Definition loadPartials_resume (pc : loadPartials_point) (st : state)
  : loadPartials_point * state :=
  match pc with
  | AtEntry => if partialsLoaded st then (Returned, st) else (AwaitReaddir, st)
  | AwaitReaddir =>
      match readdir partialsDir with
      | inl error => (Returned, partials_catch error st)
      | inr files => next_file (filter (fun file => isPartialFile file = true) files) st
      end
  | AwaitReadFile file rest =>
      match readFile (join [partialsDir; file]) with
      | inl error => (Returned, partials_catch error st)
      | inr content => next_file rest (registerPartial (partialName file) content st)
      end
  | Returned => (Returned, st)
  end.

(** The calls in flight and the module state they share. *)
Record event_loop := mkLoop { calls : list loadPartials_point; shared : state }.

(** The event loop resumes call [i]. *)
Definition resume (i : nat) (sys : event_loop) : event_loop :=
  match calls sys !! i with
  | Some pc =>
      let '(pc', st') := loadPartials_resume pc (shared sys) in
      {| calls := <[i := pc']> (calls sys); shared := st' |}
  | None => sys
  end.

Definition run (order : list nat) (sys : event_loop) : event_loop :=
  foldl (fun sys i => resume i sys) sys order.

(** [n] calls made before any of them is resumed. *)
Definition simultaneous (n : nat) (st : state) : event_loop :=
  {| calls := replicate n AtEntry; shared := st |}.

(** [r] rounds, in each of which the event loop resumes every one of [n]
    calls once, in the order they were made. *)
Definition rounds (r n : nat) : list nat := concat (replicate r (seq 0 n)).

(** What [readFile] gives for a file of the partials directory. *)
Definition partial_content (file : string) : string :=
  match readFile (join [partialsDir; file]) with
  | inr content => content
  | inl _ => ""
  end.

(** How often a partial was registered. *)
Definition registrations (partialName : string) (st : state) : nat :=
  length (filter (fun call => call.1 = partialName) (registerPartial_calls st)).

End Pipeline.

(* ================================================================== *)
(** * A reference platform *)
(* ================================================================== *)

(** A small concrete [Platform] on which the pipeline runs inside Rocq: a
    fixed directory tree, an evaluator for a fragment of route scripts and a
    renderer for templates made of text and [{{name}}].  Inside the fragment
    they answer as Node and Handlebars do; outside it the evaluator reports a
    script that never settles and the renderer an error. *)
Module Reference.
Import JsString.

Definition strip_prefix (p s : string) : option string :=
  if startsWith s p then Some (slice s (String.length p)) else None.

Definition strip_suffix (p s : string) : option string :=
  if endsWith s p then Some (substring s (String.length s - String.length p)) else None.

(** [s] cut at the first [sep]. *)
Fixpoint split_once (sep s : string) : option (string * string) :=
  if startsWith s sep then Some (EmptyString, slice s (String.length sep))
  else match s with
       | EmptyString => None
       | String a s' =>
           match split_once sep s' with
           | Some (l, r) => Some (String a l, r)
           | None => None
           end
       end.

(** [s.split(sep)] for a one-unit separator. *)
Fixpoint split (sep : ascii) (s : string) : list string :=
  match s with
  | EmptyString => [EmptyString]
  | String a s' =>
      if Ascii.eqb a sep then EmptyString :: split sep s'
      else match split sep s' with
           | [] => [String a EmptyString]
           | x :: l => String a x :: l
           end
  end.

Fixpoint all_units (p : ascii -> bool) (s : string) : bool :=
  match s with
  | EmptyString => true
  | String a s' => p a && all_units p s'
  end.

Definition is_letter (a : ascii) : bool :=
  let n := nat_of_ascii a in
  ((65 <=? n) && (n <=? 90) || (97 <=? n) && (n <=? 122))%nat.

Definition is_identifier (s : string) : bool :=
  negb (String.eqb s "") && all_units is_letter s.

(** Text that may stand between single quotes as it is. *)
Definition is_plain_text (s : string) : bool :=
  all_units (fun a => negb (Ascii.eqb a "'"%char || Ascii.eqb a "\"%char
                            || Ascii.eqb a "010"%char || Ascii.eqb a "013"%char)) s.

(** ** The file system *)

Definition hi_html : string :=
  "<script>exports.title = 'Hi';</script><template><h1>{{title}}</h1></template>".

Definition about_html : string :=
  "<script>
exports.title = 'About';
exports.currentPath = 'mine';
</script>

<template>
<p>{{currentPath}}</p>
</template>".

Definition files : list (string * string) :=
  [ ("/srv/routes/hi.html", hi_html);
    ("/srv/routes/about.html", about_html);
    ("/srv/routes/a.html.html", hi_html);
    ("/srv/routes/empty.html", "<script></script><template></template>");
    ("/srv/routes/early.html",
     "<script>exports.a = '1'; return;</script><template>{{a}}</template>");
    ("/srv/routes/boom.html",
     "<script>throw new Error('boom');</script><template>x</template>");
    ("/srv/routes/broken.html", "<template>no script here</template>");
    ("/srv/partials/menu.hbs", "<nav>menu</nav>") ].

Definition directories : list (string * list string) :=
  [ ("/srv/partials", ["menu.hbs"; "notes.txt"]) ].

Fixpoint assoc {A} (k : string) (l : list (string * A)) : option A :=
  match l with
  | [] => None
  | (k', v) :: l' => if String.eqb k k' then Some v else assoc k l'
  end.

Definition ENOENT (syscall path : string) : JsError :=
  mkError "Error"
    ("ENOENT: no such file or directory, " +:+ syscall +:+ " '" +:+ path +:+ "'")
    (Some "ENOENT").

Definition fs_readFile (path : string) : JsError + string :=
  match assoc path files with
  | Some content => inr content
  | None => inl (ENOENT "open" path)
  end.

Definition fs_readdir (path : string) : JsError + list string :=
  match assoc path directories with
  | Some entries => inr entries
  | None => inl (ENOENT "scandir" path)
  end.

(** ** The script evaluator *)

Inductive stmt :=
  | SEmpty
  | SSet (field text : string)      (* exports.field = 'text' *)
  | SReturn                         (* return *)
  | SReturnExports                  (* return exports *)
  | SThrow (msg : string)           (* throw new Error('msg') *)
  | SThrowNull                      (* throw null *)
  | SReject (msg : string)          (* await Promise.reject(new Error('msg')) *)
  | SForever.                       (* await new Promise(() => {}) *)

Inductive parsed_stmt :=
  | Stmt (s : stmt)
  | BadSyntax (e : JsError)
  | Unsupported.

Definition quoted (head tail s : string) : option string :=
  match strip_prefix head s with
  | Some rest =>
      match strip_suffix tail rest with
      | Some text => if is_plain_text text then Some text else None
      | None => None
      end
  | None => None
  end.

Definition parse_assignment (s : string) : parsed_stmt :=
  match strip_prefix "exports." s with
  | Some rest =>
      match split_once " =" rest with
      | Some (field, rhs) =>
          if negb (is_identifier field) then Unsupported
          else if String.eqb rhs "" then BadSyntax (SyntaxError "Unexpected token ';'")
          else match quoted " '" "'" rhs with
               | Some text => Stmt (SSet field text)
               | None => Unsupported
               end
      | None => Unsupported
      end
  | None => Unsupported
  end.

Definition parse_stmt (source : string) : parsed_stmt :=
  let s := trim source in
  if String.eqb s "" then Stmt SEmpty
  else if String.eqb s "return" then Stmt SReturn
  else if String.eqb s "return exports" then Stmt SReturnExports
  else if String.eqb s "throw null" then Stmt SThrowNull
  else if String.eqb s "await new Promise(() => {})" then Stmt SForever
  else match quoted "throw new Error('" "')" s with
       | Some msg => Stmt (SThrow msg)
       | None =>
           match quoted "await Promise.reject(new Error('" "'))" s with
           | Some msg => Stmt (SReject msg)
           | None => parse_assignment s
           end
       end.

(** Running the statements of the async function in order. *)
Fixpoint run_stmts (l : list parsed_stmt) (exports : gmap string jsval) : script_outcome :=
  match l with
  | [] => Fulfils (ReturnsValue VUndefined) exports
  | Stmt SEmpty :: l' => run_stmts l' exports
  | Stmt (SSet field text) :: l' => run_stmts l' (<[field := VStr text]> exports)
  | Stmt SReturn :: _ => Fulfils (ReturnsValue VUndefined) exports
  | Stmt SReturnExports :: _ => Fulfils ReturnsExports exports
  | Stmt (SThrow msg) :: _ => Rejects (ThrownError (Error msg))
  | Stmt SThrowNull :: _ => Rejects (ThrownValue VNull)
  | Stmt (SReject msg) :: _ => Rejects (ThrownError (Error msg))
  | Stmt SForever :: _ => NeverSettles
  | BadSyntax _ :: _ | Unsupported :: _ => NeverSettles
  end.

(** [new Function] rejects the whole body on its first syntax error. *)
Fixpoint first_problem (l : list parsed_stmt) : option (option JsError) :=
  match l with
  | [] => None
  | BadSyntax e :: _ => Some (Some e)
  | Unsupported :: _ => Some None
  | Stmt _ :: l' => first_problem l'
  end.

Definition body_head : string := nl +:+ "      return (async () => {".
Definition body_tail : string := nl +:+ "      })();" +:+ nl +:+ "    ".

Definition evaluate (body : string) (req : option request) : script_outcome :=
  match strip_prefix body_head body with
  | Some rest =>
      match strip_suffix body_tail rest with
      | Some inner =>
          let l := parse_stmt <$> split ";"%char inner in
          match first_problem l with
          | Some (Some e) => SyntaxErr e
          | Some None => NeverSettles
          | None => run_stmts l ∅
          end
      | None => NeverSettles
      end
  | None => NeverSettles
  end.

(** ** The template renderer *)

(** [Handlebars.escapeExpression] on one code unit. *)
Definition escape_unit (a : ascii) : string :=
  if Ascii.eqb a "&"%char then "&amp;"
  else if Ascii.eqb a "<"%char then "&lt;"
  else if Ascii.eqb a ">"%char then "&gt;"
  else if Ascii.eqb a "034"%char then "&quot;"
  else if Ascii.eqb a "'"%char then "&#x27;"
  else if Ascii.eqb a "`"%char then "&#x60;"
  else if Ascii.eqb a "="%char then "&#x3D;"
  else String a EmptyString.

Fixpoint escape (s : string) : string :=
  match s with
  | EmptyString => EmptyString
  | String a s' => escape_unit a +:+ escape s'
  end.

Definition interpolate (data : gmap string jsval) (field : string) : string :=
  match data !! field with
  | None | Some VUndefined | Some VNull => ""
  | Some v => escape (ToString v)
  end.

Fixpoint render (fuel : nat) (data : gmap string jsval) (source : string) : JsError + string :=
  match fuel with
  | O => inr source
  | S fuel' =>
      match split_once "{{" source with
      | None => inr source
      | Some (text, rest) =>
          match split_once "}}" rest with
          | None => inl (Error "Parse error: unclosed mustache")
          | Some (field, rest') =>
              if is_identifier field then
                match render fuel' data rest' with
                | inr out => inr (text +:+ interpolate data field +:+ out)
                | inl e => inl e
                end
              else inl (Error "Outside the reference renderer")
          end
      end
  end.

Definition compile (partials : list (string * string)) (source : string)
  (data : gmap string jsval) : JsError + string :=
  render (String.length source) data source.

#[export] Instance platform : Platform := {|
  cwd := "/srv";
  join := fun l => Array_join l "/";
  readFile := fs_readFile;
  readdir := fs_readdir;
  run_Function := evaluate;
  Handlebars_compile := compile
|}.

(** Requests as the hosting layer hands them over. *)
Definition GET (u : string) : request := mkRequest None (Some u) ∅.

Definition catchAll (segments : list string) : request :=
  mkRequest (Some {["path" := QArray segments]}) None ∅.

End Reference.

(* ================================================================== *)
(** * Vocabulary of the statements *)
(* ================================================================== *)

(** [s] holds an [open] marker with a [close] marker somewhere after it. *)
Definition has_pair (open close s : string) : Prop :=
  exists pre mid post, s = pre +:+ open +:+ mid +:+ close +:+ post.

(** [inner] is what stands between the first [open] of [s] and the first
    [close] after it. *)
Definition first_section (open close s inner : string) : Prop :=
  exists pre post,
    s = pre +:+ open +:+ inner +:+ close +:+ post
    /\ (forall pre2 post2, s = pre2 +:+ open +:+ post2 ->
          (String.length pre <= String.length pre2)%nat)
    /\ (forall inner2 post2, inner +:+ close +:+ post = inner2 +:+ close +:+ post2 ->
          (String.length inner <= String.length inner2)%nat).

Fixpoint all_whitespace (s : string) : Prop :=
  match s with
  | EmptyString => True
  | String a s' => JsString.isWhiteSpace a = true /\ all_whitespace s'
  end.

(** [t] is [s] without its leading and trailing white space. *)
Definition is_trim_of (s t : string) : Prop :=
  (exists l r, s = l +:+ t +:+ r /\ all_whitespace l /\ all_whitespace r)
  /\ (forall a t', t = String a t' -> JsString.isWhiteSpace a = false)
  /\ (forall t' a, t = t' +:+ String a EmptyString -> JsString.isWhiteSpace a = false).

(** A well-formed route file: both marker pairs are there. *)
Definition well_formed (content : string) : Prop :=
  has_pair "<script>" "</script>" content /\ has_pair "<template>" "</template>" content.

(** What a failed script threw; [None] when the script did not fail. *)
Definition failure_of (o : script_outcome) : option thrown :=
  match o with
  | SyntaxErr e => Some (ThrownError e)
  | Rejects error => Some error
  | Fulfils _ _ | NeverSettles => None
  end.


(* ================================================================== *)
(** * Further vocabulary *)
(* ================================================================== *)

(** [s] holds no code unit [a]. *)
Fixpoint lacks (a : ascii) (s : string) : Prop :=
  match s with
  | EmptyString => True
  | String b s' => b <> a /\ lacks a s'
  end.

(** [pat] stands somewhere in [s]. *)
Definition occurs (pat s : string) : Prop :=
  exists pre post, s = pre +:+ pat +:+ post.

(** The first [pat] of [s] stands between [pre] and [post]: [pat] stands
    there, and nowhere further to the left. *)
Definition first_at (pat s pre post : string) : Prop :=
  s = pre +:+ pat +:+ post
  /\ forall pre2 post2, s = pre2 +:+ pat +:+ post2 ->
       (String.length pre <= String.length pre2)%nat.

(** [s'] is [s] without the first [pat] it holds, and [s] itself when it
    holds none. *)
Definition without_first (pat s s' : string) : Prop :=
  (exists pre post, first_at pat s pre post /\ s' = pre +:+ post)
  \/ (~ occurs pat s /\ s' = s).

(** The partial of [file] has been registered with the content of the file. *)
Definition registered `{Platform} (file : string) (st : state) : Prop :=
  (partialName file, partial_content file) ∈ registerPartial_calls st.

(** Whatever is registered in [st] is registered in [st']. *)
Definition grows `{Platform} (st st' : state) : Prop :=
  forall file, registered file st -> registered file st'.

(** What a call of [loadPartials] suspended at [pc] has done, [hbsFiles]
    being the files the loop of lines 93-99 goes through: in the loop, the
    files before the one being read are registered; after the return, all
    are. *)
Definition call_ok `{Platform} (hbsFiles : list string)
  (pc : loadPartials_point) (st : state) : Prop :=
  match pc with
  | AtEntry | AwaitReaddir => True
  | AwaitReadFile file rest =>
      exists before, hbsFiles = before ++ file :: rest
                     /\ forall g, g ∈ before -> registered g st
  | Returned => forall g, g ∈ hbsFiles -> registered g st
  end.

(** The same of all the calls in flight, and of the flag: once
    [partialsLoaded] is set every partial is registered. *)
Definition loop_ok `{Platform} (hbsFiles : list string) (sys : event_loop) : Prop :=
  (partialsLoaded (shared sys) = true ->
   forall g, g ∈ hbsFiles -> registered g (shared sys))
  /\ Forall (fun pc => call_ok hbsFiles pc (shared sys)) (calls sys).

(** Platforms like the reference one over other directory trees: [files]
    can be read, [failing] files reject with the given error, [directories]
    gives what [readdir] answers. *)
Module Fixture.

Definition platform_with
  (files : list (string * string))
  (failing : list (string * JsError))
  (directories : list (string * (JsError + list string))) : Platform := {|
  cwd := "/srv";
  join := fun l => JsString.Array_join l "/";
  readFile := fun path =>
    match Reference.assoc path failing with
    | Some e => inl e
    | None =>
        match Reference.assoc path files with
        | Some content => inr content
        | None => inl (Reference.ENOENT "open" path)
        end
    end;
  readdir := fun path =>
    match Reference.assoc path directories with
    | Some r => r
    | None => inl (Reference.ENOENT "scandir" path)
    end;
  run_Function := Reference.evaluate;
  Handlebars_compile := Reference.compile
|}.

Definition EACCES (syscall path : string) : JsError :=
  mkError "Error"
    ("EACCES: permission denied, " +:+ syscall +:+ " '" +:+ path +:+ "'")
    (Some "EACCES").

(** No [partials] directory at all. *)
Definition bare : Platform := platform_with [] [] [].

(** A [partials] directory that cannot be listed. *)
Definition locked : Platform :=
  platform_with [] [] [("/srv/partials", inl (EACCES "scandir" "/srv/partials"))].

(** Three partials, the second of which cannot be read. *)
Definition damaged : Platform :=
  platform_with
    [("/srv/partials/a.hbs", "<a>"); ("/srv/partials/c.html", "<c>")]
    [("/srv/partials/b.hbs", EACCES "open" "/srv/partials/b.hbs")]
    [("/srv/partials", inr ["a.hbs"; "b.hbs"; "c.html"])].

(** A route whose script waits for a promise that never settles. *)
Definition stalled : Platform :=
  platform_with
    [("/srv/routes/wait.html",
      "<script>await new Promise(() => {});</script><template>x</template>")]
    [] [].

End Fixture.

(* ================================================================== *)
(** * Facts about the string primitives *)
(* ================================================================== *)

Module StringFacts.
Import JsString.

Lemma app_cons a s t : String a s +:+ t = String a (s +:+ t).
Proof. reflexivity. Qed.

Lemma app_empty_l s : "" +:+ s = s.
Proof. reflexivity. Qed.

Lemma app_empty_r s : s +:+ "" = s.
Proof. induction s as [|a s IH]; [reflexivity|]. rewrite app_cons, IH. reflexivity. Qed.

Lemma app_assoc s t u : (s +:+ t) +:+ u = s +:+ t +:+ u.
Proof. induction s as [|a s IH]; [reflexivity|]. rewrite !app_cons, IH. reflexivity. Qed.

Lemma length_app s t : String.length (s +:+ t) = (String.length s + String.length t)%nat.
Proof. induction s as [|a s IH]; [reflexivity|]. rewrite app_cons. simpl. rewrite IH. reflexivity. Qed.

Lemma startsWith_app p s : startsWith (p +:+ s) p = true.
Proof.
  induction p as [|a p IH]; [reflexivity|].
  rewrite app_cons. simpl. rewrite Ascii.eqb_refl. exact IH.
Qed.

Lemma slice_app p s : slice (p +:+ s) (String.length p) = s.
Proof. induction p as [|a p IH]; [reflexivity|]. rewrite app_cons. simpl. exact IH. Qed.

Lemma startsWith_inv s p : startsWith s p = true -> s = p +:+ slice s (String.length p).
Proof.
  revert s. induction p as [|a p IH]; intros s Hs; [reflexivity|].
  destruct s as [|b s]; [discriminate|]. simpl in Hs.
  destruct (Ascii.eqb a b) eqn:E; [|discriminate].
  apply Ascii.eqb_eq in E. subst b. rewrite app_cons. simpl. f_equal. apply IH, Hs.
Qed.

Lemma startsWith_iff s p : startsWith s p = true <-> exists r, s = p +:+ r.
Proof.
  split.
  - intros Hs. eexists. apply startsWith_inv, Hs.
  - intros [r ->]. apply startsWith_app.
Qed.

(** Two ways of cutting one string in two: the shorter head is a head of
    the longer. *)
Lemma app_eq_app a b x y :
  a +:+ b = x +:+ y -> (String.length a <= String.length x)%nat ->
  exists z, x = a +:+ z /\ b = z +:+ y.
Proof.
  revert x. induction a as [|c a IH]; intros x Heq Hlen.
  - exists x. split; [reflexivity | exact Heq].
  - destruct x as [|d x]; [simpl in Hlen; lia|].
    rewrite !app_cons in Heq. injection Heq as -> Heq.
    simpl in Hlen. destruct (IH x Heq) as (z & -> & ->); [lia|].
    exists z. split; reflexivity.
Qed.
End StringFacts.

Module RegexFacts.
Import JsString Regex StringFacts.

Lemma lazy_until_eq close s :
  lazy_until close s =
    if startsWith s close then Some EmptyString
    else match s with
         | EmptyString => None
         | String c s' => String c <$> lazy_until close s'
         end.
Proof. destruct s; reflexivity. Qed.

Lemma match_between_eq open close s :
  match_between open close s =
    match match_here open close s with
    | Some m => Some m
    | None => match s with
              | EmptyString => None
              | String _ s' => match_between open close s'
              end
    end.
Proof. destruct s; reflexivity. Qed.

Lemma lazy_until_sound close s m :
  lazy_until close s = Some m ->
  exists post,
    s = m +:+ close +:+ post
    /\ forall m2 post2, s = m2 +:+ close +:+ post2 ->
         (String.length m <= String.length m2)%nat.
Proof.
  revert m. induction s as [|c s IH]; intros m; rewrite lazy_until_eq.
  - destruct (startsWith "" close) eqn:E; [|discriminate].
    intros [= <-]. apply startsWith_inv in E. eexists. split; [exact E|].
    intros; simpl; lia.
  - destruct (startsWith (String c s) close) eqn:E.
    + intros [= <-]. apply startsWith_inv in E. eexists. split; [exact E|].
      intros; simpl; lia.
    + destruct (lazy_until close s) as [m'|]; [|discriminate].
      intros [= <-]. destruct (IH m' eq_refl) as (post & -> & Hmin).
      exists post. split; [reflexivity|].
      intros [|d m2] post2 Heq.
      * rewrite app_empty_l in Heq. rewrite Heq, startsWith_app in E. discriminate.
      * rewrite app_cons in Heq. injection Heq as <- Heq.
        apply Hmin in Heq. simpl. lia.
Qed.

Lemma lazy_until_complete close m post :
  exists m', lazy_until close (m +:+ close +:+ post) = Some m'.
Proof.
  induction m as [|c m [m' IH]]; rewrite lazy_until_eq.
  - rewrite app_empty_l, startsWith_app. eauto.
  - destruct (startsWith _ close); [eauto|].
    rewrite app_cons, IH. simpl. eauto.
Qed.

Lemma match_here_sound open close s m :
  match_here open close s = Some m ->
  exists post,
    s = open +:+ m +:+ close +:+ post
    /\ forall m2 post2, m +:+ close +:+ post = m2 +:+ close +:+ post2 ->
         (String.length m <= String.length m2)%nat.
Proof.
  unfold match_here. destruct (startsWith s open) eqn:E; [|discriminate].
  intros L. apply startsWith_inv in E.
  destruct (lazy_until_sound _ _ _ L) as (post & Hs & Hmin).
  exists post. split; [rewrite E at 1; rewrite Hs; reflexivity|].
  intros m2 post2 Heq. apply (Hmin m2 post2). rewrite Hs. exact Heq.
Qed.

Lemma match_here_complete open close mid post :
  exists m, match_here open close (open +:+ mid +:+ close +:+ post) = Some m.
Proof.
  unfold match_here. rewrite startsWith_app, slice_app. apply lazy_until_complete.
Qed.

Lemma match_between_complete open close s :
  has_pair open close s -> exists m, match_between open close s = Some m.
Proof.
  intros (pre & mid & post & ->).
  induction pre as [|c pre [m IH]]; rewrite match_between_eq.
  - rewrite app_empty_l.
    destruct (match_here_complete open close mid post) as [m ->]. eauto.
  - destruct (match_here open close _); [eauto|].
    rewrite app_cons, IH. eauto.
Qed.

Lemma match_between_sound open close s m :
  match_between open close s = Some m -> first_section open close s m.
Proof.
  revert m. induction s as [|c s IH]; intros m; rewrite match_between_eq.
  - destruct (match_here open close "") as [m'|] eqn:E; [|discriminate].
    intros [= ->]. destruct (match_here_sound _ _ _ _ E) as (post & Hs & Hmin).
    exists "", post. split; [exact Hs|]. split; [intros; simpl; lia | exact Hmin].
  - destruct (match_here open close (String c s)) as [m'|] eqn:E.
    + intros [= ->]. destruct (match_here_sound _ _ _ _ E) as (post & Hs & Hmin).
      exists "", post. split; [exact Hs|]. split; [intros; simpl; lia | exact Hmin].
    + intros Hm. destruct (IH m Hm) as (pre & post & Hs & Hfirst & Hmin).
      exists (String c pre), post. split; [rewrite app_cons, <- Hs; reflexivity|].
      split; [|exact Hmin].
      intros [|d pre2] post2 Heq.
      * exfalso. rewrite app_empty_l in Heq.
        unfold match_here in E. rewrite Heq, startsWith_app, slice_app in E.
        assert (Hcut : exists z, String c (pre +:+ open +:+ m) = open +:+ z
                                 /\ post2 = z +:+ close +:+ post).
        { apply app_eq_app.
          - rewrite <- Heq, Hs, app_cons, !app_assoc. reflexivity.
          - simpl. rewrite !length_app. lia. }
        destruct Hcut as (z & _ & ->).
        destruct (lazy_until_complete close z post) as [m' Hm'].
        rewrite Hm' in E. discriminate.
      * rewrite app_cons in Heq. injection Heq as <- Heq.
        apply Hfirst in Heq. simpl. lia.
Qed.

Lemma match_between_None open close s :
  match_between open close s = None <-> ~ has_pair open close s.
Proof.
  split.
  - intros Hn Hp. apply match_between_complete in Hp as [m Hm]. congruence.
  - intros Hp. destruct (match_between open close s) as [m|] eqn:E; [|reflexivity].
    exfalso. apply Hp. apply match_between_sound in E as (pre & post & -> & _).
    exists pre, m, post. reflexivity.
Qed.
End RegexFacts.

Module TrimFacts.
Import JsString StringFacts.

Lemma trimStart_split s : exists l, s = l +:+ trimStart s /\ all_whitespace l.
Proof.
  induction s as [|a s (l & IH & Hl)]; [exists ""; split; [reflexivity | exact I]|].
  simpl. destruct (isWhiteSpace a) eqn:E.
  - exists (String a l). rewrite app_cons, <- IH. repeat split; assumption.
  - exists "". split; [reflexivity | exact I].
Qed.

Lemma trimStart_head s a t : trimStart s = String a t -> isWhiteSpace a = false.
Proof.
  induction s as [|b s IH]; [discriminate|]. simpl.
  destruct (isWhiteSpace b) eqn:E; [exact IH|]. intros [= <- _]. exact E.
Qed.

Lemma trimEnd_eq a s :
  trimEnd (String a s) =
    match trimEnd s with
    | EmptyString => if isWhiteSpace a then EmptyString else String a EmptyString
    | t => String a t
    end.
Proof. reflexivity. Qed.

Lemma trimEnd_split s : exists r, s = trimEnd s +:+ r /\ all_whitespace r.
Proof.
  induction s as [|a s (r & IH & Hr)]; [exists ""; split; [reflexivity | exact I]|].
  rewrite trimEnd_eq. destruct (trimEnd s) as [|b t].
  - rewrite app_empty_l in IH. subst r. destruct (isWhiteSpace a) eqn:E.
    + exists (String a s). repeat split; assumption.
    + exists s. split; [reflexivity | assumption].
  - exists r. rewrite app_cons, <- IH. split; [reflexivity | assumption].
Qed.

Lemma trimEnd_last s t a : trimEnd s = t +:+ String a EmptyString -> isWhiteSpace a = false.
Proof.
  revert t. induction s as [|b s IH]; intros t.
  - destruct t; discriminate.
  - rewrite trimEnd_eq. destruct (trimEnd s) as [|c u].
    + destruct (isWhiteSpace b) eqn:E; [destruct t; discriminate|].
      destruct t as [|d [|e t]]; [|discriminate..]. intros [= <-]. exact E.
    + destruct t as [|d t]; [discriminate|].
      rewrite app_cons. intros [= _ Heq]. apply (IH t). exact Heq.
Qed.

Lemma trimEnd_head a s : isWhiteSpace a = false -> exists t, trimEnd (String a s) = String a t.
Proof.
  intros E. rewrite trimEnd_eq, E. destruct (trimEnd s); eauto.
Qed.

Lemma trim_is_trim s : is_trim_of s (trim s).
Proof.
  unfold trim. destruct (trimStart_split s) as (l & Hs & Hl).
  destruct (trimEnd_split (trimStart s)) as (r & Ht & Hr).
  split; [|split].
  - exists l, r. rewrite <- Ht. auto.
  - intros a t' Heq. destruct (trimStart s) as [|b u] eqn:E; [discriminate|].
    pose proof (trimStart_head _ _ _ E) as Hb.
    destruct (trimEnd_head b u Hb) as [t Ht']. congruence.
  - intros t' a. apply trimEnd_last.
Qed.
End TrimFacts.

(* ================================================================== *)
(** * Facts about the pipeline *)
(* ================================================================== *)

Section PipelineFacts.
Context `{Platform}.

Lemma executeScript_state scriptCode req st :
  (executeScript scriptCode req st).2 = st.
Proof.
  unfold executeScript, executeScript_catch.
  destruct (run_Function _ _) as [e|r ex|error|]; simpl; try reflexivity.
  destruct (message_of error); reflexivity.
Qed.

Lemma executeScript_pair scriptCode req st :
  executeScript scriptCode req st = ((executeScript scriptCode req st).1, st).
Proof. rewrite <- (executeScript_state scriptCode req st) at 3. apply surjective_pairing. Qed.

(** A fulfilled evaluation: the object of line 39 when the function returned
    it, else what the function returned, an empty record standing in for a
    falsy value (line 69). *)
Lemma executeScript_fulfils
  (scriptCode : string) (req : option request) (st : state)
  (r : returned) (exports : gmap string jsval) :
  run_Function (functionBody scriptCode) req = Fulfils r exports ->
  executeScript scriptCode req st =
    (Fulfilled match r with
               | ReturnsExports => VObj exports
               | ReturnsValue v => if truthy v then v else VObj ∅
               end, st).
Proof.
  intros Hrun. unfold executeScript. rewrite Hrun. destruct r; reflexivity.
Qed.

(** A failed evaluation (a syntax error, a throw, an awaited rejection)
    makes [executeScript] reject, whatever was thrown: no data is returned.
    When the message of the failure can be read the error wraps it; when it
    cannot, the error is the one of reading it. *)
Lemma executeScript_failure
  (scriptCode : string) (req : option request) (st : state) (error : thrown) :
  failure_of (run_Function (functionBody scriptCode) req) = Some error ->
  (exists e, executeScript scriptCode req st = (Rejected e, st))
  /\ (forall msg, message_of error = inr msg ->
        executeScript scriptCode req st
          = (Rejected (Error ("Error executing script: " +:+ msg)), st))
  /\ (forall e, message_of error = inl e ->
        executeScript scriptCode req st = (Rejected e, st)).
Proof.
  intros Hf. unfold executeScript.
  destruct (run_Function _ _) as [e|r ex|error'|]; simpl in Hf; try discriminate;
    injection Hf as <-; unfold executeScript_catch.
  - split; [eexists; reflexivity|]. split; [|discriminate].
    intros msg [= <-]. reflexivity.
  - destruct (message_of error') as [e|msg] eqn:E.
    + split; [eexists; reflexivity|]. split; [discriminate|].
      intros e' [= <-]. reflexivity.
    + split; [eexists; reflexivity|]. split; [|discriminate].
      intros msg' [= <-]. reflexivity.
Qed.

(** Once the file is read and parsed and the script has produced its data,
    line 149 throws and the [catch] of line 155 wraps the [TypeError]. *)
Lemma renderRoute_rejects_assignment routePath req st content parsed data :
  readFile (join [cwd; "routes"; routePath]) = inr content ->
  parseRouteFile content = inr parsed ->
  (executeScript (script parsed) req st).1 = Fulfilled data ->
  renderRoute routePath req st =
    (Rejected (Error ("Failed to render route " +:+ routePath +:+ ": "
                      +:+ const_assignment_message)), st).
Proof.
  intros Hread Hparse Hdata.
  unfold renderRoute, renderRoute_declared, try_catch, bind.
  rewrite Hread. simpl. rewrite Hparse. simpl.
  rewrite executeScript_pair, Hdata. reflexivity.
Qed.

(** [renderRoute] never returns a page. *)
Lemma renderRoute_never_fulfils routePath req st html st' :
  renderRoute routePath req st <> (Fulfilled html, st').
Proof.
  unfold renderRoute, renderRoute_declared, try_catch, bind.
  destruct (readFile _) as [e|content]; simpl; [discriminate|].
  destruct (parseRouteFile content) as [e|parsed]; simpl; [discriminate|].
  rewrite executeScript_pair.
  destruct (executeScript (script parsed) req st).1; simpl; discriminate.
Qed.



End PipelineFacts.

(** A call of [loadPartials] that nobody interleaves with does what the
    function does: the suspended call, resumed often enough, returns in the
    state [registerAll] computes. *)
Section AloneFacts.
Context `{Platform}.

Lemma run_app order1 order2 sys :
  run (order1 ++ order2) sys = run order2 (run order1 sys).
Proof. unfold run. apply foldl_app. Qed.

Lemma resume_alone pc st :
  resume 0 (mkLoop [pc] st) =
    mkLoop [(loadPartials_resume pc st).1] (loadPartials_resume pc st).2.
Proof. unfold resume. simpl. destruct (loadPartials_resume pc st). reflexivity. Qed.

Lemma loop_alone file rest st :
  exists k, run (replicate k 0%nat) (mkLoop [AwaitReadFile file rest] st)
            = mkLoop [Returned] (registerAll (file :: rest) st).
Proof.
  revert file st. induction rest as [|next rest IH]; intros file st.
  - exists 1%nat. unfold run. simpl. rewrite resume_alone. simpl.
    destruct (readFile _); reflexivity.
  - simpl. destruct (readFile (join [partialsDir; file])) as [e|content] eqn:E.
    + exists 1%nat. unfold run. simpl. rewrite resume_alone. simpl. rewrite E. reflexivity.
    + destruct (IH next (registerPartial (partialName file) content st)) as [k Hk].
      exists (S k). change (replicate (S k) 0%nat) with ([0%nat] ++ replicate k 0%nat).
      rewrite run_app. unfold run at 2. simpl. rewrite resume_alone. simpl. rewrite E.
      simpl. exact Hk.
Qed.

Lemma loadPartials_alone st :
  exists k, run (replicate k 0%nat) (simultaneous 1 st)
            = mkLoop [Returned] (loadPartials st).2.
Proof.
  unfold simultaneous, loadPartials. simpl.
  destruct (partialsLoaded st) eqn:E.
  - exists 1%nat. unfold run. simpl. rewrite resume_alone. simpl. rewrite E. reflexivity.
  - destruct (readdir partialsDir) as [e|files] eqn:D.
    + exists 2%nat. unfold run. simpl. rewrite !resume_alone. simpl. rewrite E. simpl.
      rewrite D. reflexivity.
    + simpl. destruct (filter _ files) as [|file rest] eqn:F.
      * exists 2%nat. unfold run. simpl. rewrite !resume_alone. simpl. rewrite E. simpl.
        rewrite D, F. reflexivity.
      * destruct (loop_alone file rest st) as [k Hk].
        exists (2 + k)%nat. change (replicate (2 + k) 0%nat) with ([0; 0]%nat ++ replicate k 0%nat).
        rewrite run_app. unfold run at 2. simpl. rewrite !resume_alone. simpl. rewrite E. simpl.
        rewrite D, F. simpl. exact Hk.
Qed.
End AloneFacts.

(** Calls of [loadPartials] that overlap: resumed round by round, they all
    stand at the same [await] and all do the same work. *)
Section OverlapFacts.
Context `{Platform}.

Lemma rounds_S r n : rounds (S r) n = seq 0 n ++ rounds r n.
Proof. reflexivity. Qed.

(** One round over calls that are all suspended at [pc], when resuming at
    [pc] leads to [pc'] and changes the state by [f]. *)
Lemma round_prefix (I : state -> Prop) pc pc' (f : state -> state) n st k :
  (forall s, I s -> loadPartials_resume pc s = (pc', f s) /\ I (f s)) ->
  I st -> (k <= n)%nat ->
  run (seq 0 k) (mkLoop (replicate n pc) st)
    = mkLoop (replicate k pc' ++ replicate (n - k) pc) (Nat.iter k f st)
  /\ I (Nat.iter k f st).
Proof.
  intros Hstep Hst. induction k as [|k IH]; intros Hk.
  - simpl. rewrite Nat.sub_0_r. split; [reflexivity | exact Hst].
  - destruct IH as [IH HI]; [lia|].
    rewrite seq_S, run_app, IH. simpl.
    destruct (Hstep _ HI) as [Hr HI']. split; [|exact HI'].
    unfold resume. simpl.
    assert (Hn : (n - k = S (n - S k))%nat) by lia.
    rewrite lookup_app_r, length_replicate, Nat.sub_diag, Hn by (rewrite length_replicate; lia).
    simpl. rewrite Hr. f_equal.
    rewrite <- (length_replicate k pc') at 1.
    rewrite <- (Nat.add_0_r (length (replicate k pc'))), insert_app_r. simpl.
    change (pc' :: replicate k pc' ++ replicate (n - S k) pc)
      with (replicate (S k) pc' ++ replicate (n - S k) pc).
    rewrite replicate_S_end, <- app_assoc. reflexivity.
Qed.

Lemma round (I : state -> Prop) pc pc' (f : state -> state) n st :
  (forall s, I s -> loadPartials_resume pc s = (pc', f s) /\ I (f s)) ->
  I st ->
  run (seq 0 n) (mkLoop (replicate n pc) st)
    = mkLoop (replicate n pc') (Nat.iter n f st).
Proof.
  intros Hstep Hst.
  destruct (round_prefix I pc pc' f n st n Hstep Hst (le_n n)) as [Hr _].
  rewrite Hr, Nat.sub_diag. simpl. rewrite app_nil_r. reflexivity.
Qed.

Lemma iter_id {A} n (a : A) : Nat.iter n (fun x => x) a = a.
Proof. induction n; simpl; congruence. Qed.

Lemma rounds_Returned r n st :
  run (rounds r n) (mkLoop (replicate n Returned) st) = mkLoop (replicate n Returned) st.
Proof.
  induction r as [|r IH]; [reflexivity|].
  rewrite rounds_S, run_app.
  rewrite (round (fun _ => True) Returned Returned (fun s => s)); auto.
  rewrite iter_id. exact IH.
Qed.

Lemma calls_iter_set n st :
  registerPartial_calls (Nat.iter n set_partialsLoaded st) = registerPartial_calls st.
Proof. induction n; simpl; auto. Qed.

Lemma calls_iter_register n name content st :
  registerPartial_calls (Nat.iter n (registerPartial name content) st)
    = registerPartial_calls st ++ replicate n (name, content).
Proof.
  induction n as [|n IH]; simpl.
  - rewrite app_nil_r. reflexivity.
  - rewrite IH, <- app_assoc. f_equal. symmetry. apply replicate_cons_app.
Qed.

Lemma calls_iter_register_set n name content st :
  registerPartial_calls
    (Nat.iter n (fun s => set_partialsLoaded (registerPartial name content s)) st)
    = registerPartial_calls st ++ replicate n (name, content).
Proof.
  induction n as [|n IH]; simpl.
  - rewrite app_nil_r. reflexivity.
  - rewrite IH, <- app_assoc. f_equal. symmetry. apply replicate_cons_app.
Qed.

(** The rounds of the loop: every call reads and registers the same file
    in the same round. *)
Lemma file_rounds n file rest st :
  Forall (fun file => exists content, readFile (join [partialsDir; file]) = inr content)
         (file :: rest) ->
  exists st',
    run (rounds (S (length rest)) n) (mkLoop (replicate n (AwaitReadFile file rest)) st)
      = mkLoop (replicate n Returned) st'
    /\ registerPartial_calls st'
       = registerPartial_calls st
         ++ flat_map (fun file => replicate n (partialName file, partial_content file))
                     (file :: rest).
Proof.
  revert file st. induction rest as [|next rest IH]; intros file st Hread;
    inversion Hread as [|? ? [content Hc] Hrest]; subst.
  - eexists. split.
    + simpl. rewrite rounds_S, run_app.
      rewrite (round (fun _ => True) _ Returned
                 (fun s => set_partialsLoaded (registerPartial (partialName file) content s)));
        [apply rounds_Returned | | exact I].
      intros s _. simpl. rewrite Hc. auto.
    + rewrite calls_iter_register_set. simpl. rewrite app_nil_r.
      unfold partial_content. rewrite Hc. reflexivity.
  - destruct (IH next (Nat.iter n (registerPartial (partialName file) content) st) Hrest)
      as (st' & Hrun & Hcalls).
    exists st'. split.
    + change (length (next :: rest)) with (S (length rest)).
      rewrite rounds_S, run_app.
      rewrite (round (fun _ => True) _ (AwaitReadFile next rest)
                 (registerPartial (partialName file) content));
        [exact Hrun | | exact I].
      intros s _. simpl. rewrite Hc. auto.
    + rewrite Hcalls, calls_iter_register, <- app_assoc. f_equal.
      change (flat_map ?g (file :: ?l)) with (g file ++ flat_map g l).
      unfold partial_content at 2. rewrite Hc. reflexivity.
Qed.
End OverlapFacts.

(* ================================================================== *)
(** * The claims *)
(* ================================================================== *)

Section Claims.
Context `{Platform}.

(** C1.  A request that resolves to the route file with script
    [exports.title = 'Hi';] and template [<h1>{{title}}</h1>] should be
    answered [<h1>Hi</h1>] with status 200.  The source answers it with
    status 500, content type [text/plain; charset=utf-8] and the message of
    the [TypeError] that line 149 throws when it assigns to the [const]
    binding [data]; the module state is left as it was. *)
Theorem C1_hi_route_is_answered_500 (req : request) (st : state) (content : string) :
  readFile (join [cwd; "routes"; resolveRoutePath req]) = inr content ->
  parseRouteFile content
    = inr {| script := "exports.title = 'Hi';"; template := "<h1>{{title}}</h1>" |} ->
  run_Function (functionBody "exports.title = 'Hi';") (Some req)
    = Fulfils ReturnsExports {["title" := VStr "Hi"]} ->
  handler req st =
    (Some {| contentType := "text/plain; charset=utf-8";
             statusCode := 500;
             body := "Error: Failed to render route " +:+ resolveRoutePath req
                     +:+ ": Assignment to constant variable." |}, st).
Proof.
  intros Hread Hparse Hrun. unfold handler, handler_declared.
  fold (renderRoute (resolveRoutePath req) (Some req) st).
  rewrite (renderRoute_rejects_assignment _ _ _ content _
             (VObj {["title" := VStr "Hi"]}) Hread Hparse).
  - reflexivity.
  - simpl. unfold executeScript. rewrite Hrun. reflexivity.
Qed.

(** C2.  The data handed to the template should carry [currentPath], derived
    from the route path and overriding what the script exported.  The source
    builds that record ([currentPath] is the derived one) but the assignment
    that should store it throws: whenever the file is read and parsed and
    the script has produced its data, [renderRoute] rejects with the wrapped
    [TypeError], and no call of [renderRoute] ever returns a page. *)
Theorem C2_merged_data_never_reaches_the_template
  (routePath : string) (req : option request) (st : state)
  (content : string) (parsed : routeFile) (data : jsval) :
  readFile (join [cwd; "routes"; routePath]) = inr content ->
  parseRouteFile content = inr parsed ->
  executeScript (script parsed) req st = (Fulfilled data, st) ->
  merge_currentPath data (currentPath_of routePath) !! "currentPath"
    = Some (VStr (currentPath_of routePath))
  /\ renderRoute routePath req st =
       (Rejected (Error ("Failed to render route " +:+ routePath
                         +:+ ": Assignment to constant variable.")), st)
  /\ forall html st', renderRoute routePath req st <> (Fulfilled html, st').
Proof.
  intros Hread Hparse Hdata. split; [|split].
  - unfold merge_currentPath. apply lookup_insert_eq.
  - apply (renderRoute_rejects_assignment _ _ _ content parsed data Hread Hparse).
    rewrite Hdata. reflexivity.
  - intros html st'. apply renderRoute_never_fulfils.
Qed.


(** C5.  A script whose evaluation fails should make [executeScript] fail
    with the error [Error executing script: ] followed by the message of the
    failure.  The source does so whenever that message can be read
    ([executeScript_failure]).  For a script that throws [null] or
    [undefined], or rejects with one of them, reading [error.message] on
    line 71 throws in turn: [executeScript] rejects with that [TypeError],
    which is not the wrapped error. *)
Theorem C5_thrown_null_is_not_wrapped
  (scriptCode : string) (req : option request) (st : state) (v : jsval) :
  run_Function (functionBody scriptCode) req = Rejects (ThrownValue v) ->
  v = VNull \/ v = VUndefined ->
  exists e,
    executeScript scriptCode req st = (Rejected e, st)
    /\ name e = "TypeError"
    /\ message e = "Cannot read properties of " +:+ ToString v +:+ " (reading 'message')"
    /\ forall msg, e <> Error ("Error executing script: " +:+ msg).
Proof.
  intros Hrun Hv. unfold executeScript. rewrite Hrun. unfold executeScript_catch.
  destruct Hv as [-> | ->]; simpl; eexists; (split; [reflexivity|]);
    repeat split; discriminate.
Qed.

(** C6.  A script that completes should yield the fields it assigned onto
    [exports].  The source answers with what the wrapped function returned
    ([result || {}], line 69) and not with the object of line 39: when the
    function returns a falsy value of its own (the script left through
    [return;], or gave [exports] another value), the record is empty and
    every field the script had assigned is lost. *)
Theorem C6_assigned_exports_are_lost
  (scriptCode : string) (req : option request) (st : state)
  (v : jsval) (exports : gmap string jsval) (field : string) (value : jsval) :
  run_Function (functionBody scriptCode) req = Fulfils (ReturnsValue v) exports ->
  truthy v = false ->
  exports !! field = Some value ->
  exists data,
    executeScript scriptCode req st = (Fulfilled (VObj data), st)
    /\ data !! field = None.
Proof.
  intros Hrun Hv _. exists ∅. unfold executeScript. rewrite Hrun, Hv.
  split; [reflexivity | apply lookup_empty].
Qed.

(** C10.  A request with neither a non-empty [query.path] array nor a [url]
    resolves to [index.html], and that is the route the handler renders. *)
Theorem C10_no_routing_hint_resolves_to_index (req : request) (st : state) :
  (forall q segments,
      query req = Some q -> q !! "path" = Some (QArray segments) -> segments = []) ->
  url req = None ->
  resolveRoutePath req = "index.html"
  /\ handler req st = respond (renderRoute "index.html" (Some req) st).
Proof.
  intros Hq Hu.
  assert (Hr : resolveRoutePath req = "index.html").
  { unfold resolveRoutePath.
    assert (catchAllSegments req = None) as ->.
    { unfold catchAllSegments. destruct (query req) as [q|] eqn:Eq; [|reflexivity].
      destruct (q !! "path") as [[s|[|s l]]|] eqn:Ep; try reflexivity.
      specialize (Hq q (s :: l) eq_refl Ep). discriminate. }
    rewrite Hu. reflexivity. }
  split; [exact Hr|]. unfold handler, handler_declared. rewrite Hr. reflexivity.
Qed.
End Claims.

(** C4.  The empty segment array resolves to [index.html], [/about] to
    [about.html], [/api/about?x=1] to [about.html] (query and [/api] prefix
    dropped) and [/already.html] to [already.html] (no second extension),
    whatever the headers. *)
Theorem C4_path_resolution_examples (h : gmap string string) :
  resolveRoutePath (mkRequest (Some {["path" := QArray []]}) None h) = "index.html"
  /\ resolveRoutePath (mkRequest None (Some "/about") h) = "about.html"
  /\ resolveRoutePath (mkRequest None (Some "/api/about?x=1") h) = "about.html"
  /\ resolveRoutePath (mkRequest None (Some "/already.html") h) = "already.html".
Proof. repeat split. Qed.

(** C7, as amended.  For a well-formed route file the parser returns, for
    each section, the text between the first start marker and the first end
    marker after it, without its leading and trailing white space (the
    result may be empty). *)
Theorem C7_parseRouteFile_returns_first_sections (content : string) :
  well_formed content ->
  exists s t,
    first_section "<script>" "</script>" content s
    /\ first_section "<template>" "</template>" content t
    /\ parseRouteFile content
       = inr {| script := JsString.trim s; template := JsString.trim t |}
    /\ is_trim_of s (JsString.trim s) /\ is_trim_of t (JsString.trim t).
Proof.
  intros [Hs Ht].
  apply RegexFacts.match_between_complete in Hs as [s Hs].
  apply RegexFacts.match_between_complete in Ht as [t Ht].
  exists s, t. unfold parseRouteFile. rewrite Hs, Ht.
  repeat split; auto using RegexFacts.match_between_sound;
    apply TrimFacts.trim_is_trim.
Qed.

(** C8.  A route file without a script marker pair, or without a template
    marker pair, is rejected with the malformed-route-file error. *)
Theorem C8_missing_section_is_malformed (content : string) :
  ~ has_pair "<script>" "</script>" content
  \/ ~ has_pair "<template>" "</template>" content ->
  parseRouteFile content = inl MalformedRouteFile.
Proof.
  unfold parseRouteFile.
  intros [Hs | Ht].
  - apply RegexFacts.match_between_None in Hs. rewrite Hs. reflexivity.
  - apply RegexFacts.match_between_None in Ht. rewrite Ht.
    destruct (Regex.match_between "<script>" _ _); reflexivity.
Qed.

(** C9.  [n] calls of [loadPartials] made before any of them is resumed
    should load the partials once.  In the source every one of them passes
    the test of line 79 (the flag is set only after the last [await]), scans
    the directory and registers every partial: resumed in rounds, the [n]
    calls all return and each partial of the directory has been registered
    [n] times. *)
Theorem C9_simultaneous_loads_all_register `{Platform} (n : nat) (st : state) (files : list string) :
  partialsLoaded st = false ->
  readdir partialsDir = inr files ->
  Forall (fun file => exists content, readFile (join [partialsDir; file]) = inr content)
         (filter (fun file => isPartialFile file = true) files) ->
  let hbsFiles := filter (fun file => isPartialFile file = true) files in
  let sys := run (rounds (2 + length hbsFiles) n) (simultaneous n st) in
  calls sys = replicate n Returned
  /\ registerPartial_calls (shared sys)
     = registerPartial_calls st
       ++ flat_map (fun file => replicate n (partialName file, partial_content file)) hbsFiles.
Proof.
  intros Hflag Hdir Hread hbsFiles sys. subst sys. unfold simultaneous.
  change (2 + length hbsFiles)%nat with (S (S (length hbsFiles))).
  rewrite rounds_S, run_app.
  rewrite (round (fun s => partialsLoaded s = false) AtEntry AwaitReaddir (fun s => s));
    [| intros s Hs; simpl; rewrite Hs; auto | exact Hflag].
  rewrite iter_id, rounds_S, run_app.
  fold hbsFiles in Hread. destruct hbsFiles as [|file rest] eqn:E.
  - rewrite (round (fun _ => True) AwaitReaddir Returned set_partialsLoaded);
      [| intros s _; simpl; rewrite Hdir; fold hbsFiles; rewrite E; auto | exact I].
    simpl. rewrite calls_iter_set, app_nil_r. auto.
  - rewrite (round (fun _ => True) AwaitReaddir (AwaitReadFile file rest) (fun s => s));
      [| intros s _; simpl; rewrite Hdir; fold hbsFiles; rewrite E; auto | exact I].
    rewrite iter_id.
    destruct (file_rounds n file rest st Hread) as (st' & Hrun & Hcalls).
    simpl length. rewrite Hrun. simpl. auto.
Qed.

(* ================================================================== *)
(** * The claims on the reference platform *)
(* ================================================================== *)

Module OnReference.
Import Reference.

(** With [let data] on line 140 the same pipeline renders the page. *)
Lemma hi_route_with_let_binding :
  handler_declared Let (GET "/hi") initial =
    (Some {| contentType := "text/html; charset=utf-8"; statusCode := 200;
             body := "<h1>Hi</h1>" |},
     mkState true [("menu", "<nav>menu</nav>")] []).
Proof. vm_compute. reflexivity. Qed.

(** [replace] drops the first [.html], which need not be the suffix. *)
Lemma currentPath_of_inner_extension : currentPath_of "a.html.html" = "/a.html".
Proof. reflexivity. Qed.

Lemma currentPath_of_examples :
  currentPath_of "index.html" = "/" /\ currentPath_of "about.html" = "/about".
Proof. split; reflexivity. Qed.

(** An empty [url] is no routing hint either. *)
Lemma empty_url_resolves_to_index : resolveRoutePath (GET "") = "index.html".
Proof. reflexivity. Qed.

Lemma two_fields_script :
  executeScript "exports.a = '1'; exports.b = '2';" None initial
  = (Fulfilled (VObj (<["b" := VStr "2"]> {["a" := VStr "1"]})), initial).
Proof. vm_compute. reflexivity. Qed.

Lemma empty_script : executeScript "" None initial = (Fulfilled (VObj ∅), initial).
Proof. vm_compute. reflexivity. Qed.

(** Thrown [null] has no [message] to read: the [catch] of line 70 throws
    itself, and the error is not the wrapped one. *)
Lemma thrown_null_escapes_the_wrapper :
  executeScript "throw null;" None initial
  = (Rejected (TypeError "Cannot read properties of null (reading 'message')"), initial).
Proof. vm_compute. reflexivity. Qed.

(** One call after the other: the second finds [partialsLoaded] set. *)
Lemma consecutive_loads_register_once :
  registerPartial_calls (shared (run [0; 0; 0; 1]%nat (mkLoop [AtEntry; AtEntry] initial)))
  = [("menu", "<nav>menu</nav>")].
Proof. vm_compute. reflexivity. Qed.

Lemma C1_hi_route_is_answered_500_witness :
  readFile (join [cwd; "routes"; resolveRoutePath (GET "/hi")]) = inr hi_html
  /\ handler (GET "/hi") initial =
       (Some {| contentType := "text/plain; charset=utf-8";
                statusCode := 500;
                body := "Error: Failed to render route hi.html: Assignment to constant variable." |},
        initial).
Proof.
  split; [reflexivity|].
  apply (C1_hi_route_is_answered_500 (GET "/hi") initial hi_html); reflexivity.
Defined.

Lemma C2_merged_data_never_reaches_the_template_witness :
  merge_currentPath
    (VObj (<["currentPath" := VStr "mine"]> {["title" := VStr "About"]}))
    (currentPath_of "about.html") !! "currentPath" = Some (VStr "/about")
  /\ renderRoute "about.html" None initial =
       (Rejected (Error "Failed to render route about.html: Assignment to constant variable."),
        initial).
Proof.
  destruct (C2_merged_data_never_reaches_the_template "about.html" None initial about_html
              {| script := "exports.title = 'About';" +:+ nl +:+ "exports.currentPath = 'mine';";
                 template := "<p>{{currentPath}}</p>" |}
              (VObj (<["currentPath" := VStr "mine"]> {["title" := VStr "About"]})))
    as (Hmerged & Hrejects & _).
  - reflexivity.
  - reflexivity.
  - vm_compute. reflexivity.
  - split; [exact Hmerged | exact Hrejects].
Defined.



(** For a failure with a message, the wrapped error. *)
Lemma thrown_error_is_wrapped :
  executeScript "throw new Error('boom');" None initial
  = (Rejected (Error "Error executing script: boom"), initial)
  /\ executeScript "await Promise.reject(new Error('nope'));" None initial
     = (Rejected (Error "Error executing script: nope"), initial)
  /\ executeScript "exports.title = ;" None initial
     = (Rejected (Error "Error executing script: Unexpected token ';'"), initial).
Proof. repeat split; vm_compute; reflexivity. Qed.

Lemma C5_thrown_null_is_not_wrapped_witness :
  run_Function (functionBody "throw null;") None = Rejects (ThrownValue VNull)
  /\ exists e,
       executeScript "throw null;" None initial = (Rejected e, initial)
       /\ name e = "TypeError"
       /\ message e = "Cannot read properties of null (reading 'message')"
       /\ forall msg, e <> Error ("Error executing script: " +:+ msg).
Proof.
  assert (Hrun : run_Function (functionBody "throw null;") None = Rejects (ThrownValue VNull)).
  { vm_compute. reflexivity. }
  split; [exact Hrun|].
  exact (C5_thrown_null_is_not_wrapped "throw null;" None initial VNull Hrun (or_introl eq_refl)).
Defined.

Lemma C6_assigned_exports_are_lost_witness :
  run_Function (functionBody "exports.a = '1'; return;") None
    = Fulfils (ReturnsValue VUndefined) {["a" := VStr "1"]}
  /\ exists data,
       executeScript "exports.a = '1'; return;" None initial = (Fulfilled (VObj data), initial)
       /\ data !! "a" = None.
Proof.
  assert (Hrun : run_Function (functionBody "exports.a = '1'; return;") None
                 = Fulfils (ReturnsValue VUndefined) {["a" := VStr "1"]}).
  { vm_compute. reflexivity. }
  split; [exact Hrun|].
  exact (@C6_assigned_exports_are_lost platform "exports.a = '1'; return;" None initial
           VUndefined {["a" := VStr "1"]} "a" (VStr "1") Hrun eq_refl eq_refl).
Defined.

(** The same script, run: the record is empty. *)
Lemma early_return_yields_empty_record :
  executeScript "exports.a = '1'; return;" None initial = (Fulfilled (VObj ∅), initial).
Proof. vm_compute. reflexivity. Qed.

Lemma C7_parseRouteFile_returns_first_sections_witness :
  well_formed hi_html
  /\ exists s t,
       first_section "<script>" "</script>" hi_html s
       /\ first_section "<template>" "</template>" hi_html t
       /\ parseRouteFile hi_html
          = inr {| script := JsString.trim s; template := JsString.trim t |}
       /\ is_trim_of s (JsString.trim s) /\ is_trim_of t (JsString.trim t).
Proof.
  assert (Hwf : well_formed hi_html).
  { split.
    - exists "", "exports.title = 'Hi';", "<template><h1>{{title}}</h1></template>".
      reflexivity.
    - exists "<script>exports.title = 'Hi';</script>", "<h1>{{title}}</h1>", "".
      reflexivity. }
  split; [exact Hwf|].
  exact (C7_parseRouteFile_returns_first_sections hi_html Hwf).
Defined.

(** Both marker pairs are there and both sections come back empty. *)
Lemma C7_empty_sections_counterexample :
  well_formed "<script></script><template></template>"
  /\ parseRouteFile "<script></script><template></template>"
     = inr {| script := ""; template := "" |}.
Proof.
  split; [|reflexivity]. split.
  - exists "", "", "<template></template>". reflexivity.
  - exists "<script></script>", "", "". reflexivity.
Qed.

Lemma C8_missing_section_is_malformed_witness :
  ~ has_pair "<script>" "</script>" "<template>no script here</template>"
  /\ parseRouteFile "<template>no script here</template>" = inl MalformedRouteFile.
Proof.
  assert (Hmissing : ~ has_pair "<script>" "</script>" "<template>no script here</template>").
  { apply RegexFacts.match_between_None. reflexivity. }
  split; [exact Hmissing|].
  exact (C8_missing_section_is_malformed _ (or_introl Hmissing)).
Defined.

Lemma C9_simultaneous_loads_all_register_witness :
  partialsLoaded initial = false
  /\ readdir partialsDir = inr ["menu.hbs"; "notes.txt"]
  /\ calls (run (rounds 3 2) (simultaneous 2 initial)) = [Returned; Returned]
  /\ registerPartial_calls (shared (run (rounds 3 2) (simultaneous 2 initial)))
     = [("menu", "<nav>menu</nav>"); ("menu", "<nav>menu</nav>")].
Proof.
  split; [reflexivity|]. split; [reflexivity|].
  assert (Hread : Forall (fun file => exists content,
                            readFile (join [partialsDir; file]) = inr content)
                         (filter (fun file => isPartialFile file = true)
                                 ["menu.hbs"; "notes.txt"])).
  { repeat constructor. exists "<nav>menu</nav>". reflexivity. }
  exact (C9_simultaneous_loads_all_register 2 initial ["menu.hbs"; "notes.txt"]
           eq_refl eq_refl Hread).
Defined.

(** The same two calls, resumed in turn: [menu] is registered twice. *)
Lemma two_loads_in_turn_register_twice :
  rounds 3 2 = [0; 1; 0; 1; 0; 1]%nat
  /\ registrations "menu" (shared (run [0; 1; 0; 1; 0; 1]%nat (simultaneous 2 initial))) = 2%nat.
Proof. split; vm_compute; reflexivity. Qed.

Lemma C10_no_routing_hint_resolves_to_index_witness :
  resolveRoutePath (catchAll []) = "index.html"
  /\ handler (catchAll []) initial = respond (renderRoute "index.html" (Some (catchAll [])) initial).
Proof.
  apply (C10_no_routing_hint_resolves_to_index (catchAll []) initial).
  - intros q segments [= <-] Hp.
    rewrite lookup_singleton_eq in Hp. injection Hp as <-. reflexivity.
  - reflexivity.
Defined.

End OnReference.

(* ================================================================== *)
(** * Further facts about the string primitives *)
(* ================================================================== *)

Module MoreStringFacts.
Import JsString StringFacts.

Lemma substring_slice s n : substring s n +:+ slice s n = s.
Proof.
  revert s. induction n as [|n IH]; intros s; [reflexivity|].
  destruct s as [|a s]; [reflexivity|]. simpl. rewrite app_cons, IH. reflexivity.
Qed.

Lemma substring_app p s : substring (p +:+ s) (String.length p) = p.
Proof. induction p as [|a p IH]; [reflexivity|]. rewrite app_cons. simpl. rewrite IH. reflexivity. Qed.

Lemma length_slice s n : String.length (slice s n) = (String.length s - n)%nat.
Proof.
  revert s. induction n as [|n IH]; intros s; simpl; [lia|].
  destruct s as [|a s]; [reflexivity|]. simpl. apply IH.
Qed.

Lemma endsWith_app s p : endsWith (s +:+ p) p = true.
Proof.
  unfold endsWith. rewrite length_app.
  replace (String.length s + String.length p - String.length p)%nat with (String.length s) by lia.
  pose proof (startsWith_app p "") as Hp. rewrite app_empty_r in Hp.
  rewrite slice_app, Hp, andb_true_r. apply Nat.leb_le. lia.
Qed.

Lemma endsWith_inv s p : endsWith s p = true -> exists pre, s = pre +:+ p.
Proof.
  unfold endsWith. intros [Hlen Hs]%andb_true_iff.
  apply Nat.leb_le in Hlen. apply startsWith_inv in Hs.
  set (n := (String.length s - String.length p)%nat) in *.
  assert (Hl : String.length (slice (slice s n) (String.length p)) = 0%nat).
  { rewrite !length_slice. lia. }
  destruct (slice (slice s n) (String.length p)); [|discriminate].
  rewrite app_empty_r in Hs. exists (substring s n). rewrite <- Hs. symmetry. apply substring_slice.
Qed.

Lemma endsWith_iff s p : endsWith s p = true <-> exists pre, s = pre +:+ p.
Proof. split; [apply endsWith_inv | intros [pre ->]; apply endsWith_app]. Qed.
End MoreStringFacts.

Module UrlFacts.
Import JsString StringFacts MoreStringFacts.

Lemma startsWith_unit s a :
  startsWith s (String a EmptyString)
  = match s with EmptyString => false | String b _ => Ascii.eqb a b end.
Proof. destruct s as [|b s]; [reflexivity|]. simpl. destruct (Ascii.eqb a b); reflexivity. Qed.

Lemma indexOf_eq s p :
  indexOf s p =
    if startsWith s p then 0
    else match s with
         | EmptyString => -1
         | String _ s' => let i := indexOf s' p in if i =? -1 then -1 else i + 1
         end.
Proof. destruct s; reflexivity. Qed.

Lemma indexOf_lower s p : -1 <= indexOf s p.
Proof.
  induction s as [|a s IH]; rewrite indexOf_eq; destruct (startsWith _ p); try lia.
  cbv zeta. destruct (indexOf s p =? -1) eqn:E; lia.
Qed.

(** A string without the unit: [indexOf] answers [-1]. *)
Lemma indexOf_lacks s a : lacks a s -> indexOf s (String a EmptyString) = -1.
Proof.
  induction s as [|b s IH]; intros Hs; rewrite indexOf_eq, startsWith_unit; [reflexivity|].
  destruct Hs as [Hb Hs]. destruct (Ascii.eqb a b) eqn:E.
  - apply Ascii.eqb_eq in E. congruence.
  - cbv zeta. rewrite (IH Hs). reflexivity.
Qed.

(** The first occurrence of the unit is found where it stands. *)
Lemma indexOf_first s a t :
  lacks a s ->
  indexOf (s +:+ String a t) (String a EmptyString) = Z.of_nat (String.length s).
Proof.
  induction s as [|b s IH]; intros Hs; rewrite indexOf_eq, startsWith_unit.
  - rewrite app_empty_l, Ascii.eqb_refl. reflexivity.
  - destruct Hs as [Hb Hs]. rewrite app_cons. destruct (Ascii.eqb a b) eqn:E.
    + apply Ascii.eqb_eq in E. congruence.
    + cbv zeta. rewrite (IH Hs).
      destruct (Z.of_nat (String.length s) =? -1) eqn:E'; [apply Z.eqb_eq in E'; lia|].
      simpl String.length. lia.
Qed.

(** Lines 177-180 cut the URL at its first [?]. *)
Lemma cut_at_query p q :
  lacks "?"%char p ->
  (let u := p +:+ "?" +:+ q in
   if negb (indexOf u "?" =? -1) then substring u (Z.to_nat (indexOf u "?")) else u) = p
  /\ (if negb (indexOf p "?" =? -1) then substring p (Z.to_nat (indexOf p "?")) else p) = p.
Proof.
  intros Hp. split.
  - cbv zeta. change ("?" +:+ q) with (String "?"%char q).
    rewrite (indexOf_first p "?"%char q Hp).
    destruct (Z.of_nat (String.length p) =? -1) eqn:E; [apply Z.eqb_eq in E; lia|].
    simpl negb. cbv iota.
    rewrite Nat2Z.id. apply substring_app.
  - rewrite (indexOf_lacks p "?"%char Hp). reflexivity.
Qed.

Lemma pathOfUrl_query p q :
  lacks "?"%char p -> pathOfUrl (p +:+ "?" +:+ q) = pathOfUrl p.
Proof.
  intros Hp. destruct (cut_at_query p q Hp) as [H1 H2].
  unfold pathOfUrl. cbv zeta in *. rewrite H1, H2. reflexivity.
Qed.
End UrlFacts.

Module RouteFacts.
Import JsString StringFacts MoreStringFacts UrlFacts.

Lemma lacks_app a s t : lacks a (s +:+ t) <-> lacks a s /\ lacks a t.
Proof.
  induction s as [|b s IH]; [rewrite app_empty_l; simpl; tauto|].
  rewrite app_cons. simpl. tauto.
Qed.

Lemma lacks_dot_not_html s : lacks "."%char s -> endsWith s ".html" = false.
Proof.
  intros Hs. destruct (endsWith s ".html") eqn:E; [|reflexivity].
  apply endsWith_inv in E as [pre ->]. apply lacks_app in Hs as [_ [Hdot _]].
  congruence.
Qed.

Lemma startsWith_other s a b p :
  a <> b -> startsWith (String a s) (String b p) = false.
Proof.
  intros Hab. simpl. destruct (Ascii.eqb b a) eqn:E; [|reflexivity].
  apply Ascii.eqb_eq in E. congruence.
Qed.

Lemma replace_eq s p r :
  replace s p r =
    if startsWith s p then r +:+ slice s (String.length p)
    else match s with
         | EmptyString => EmptyString
         | String a s' => String a (replace s' p r)
         end.
Proof. destruct s; reflexivity. Qed.

(** [replace] removes the [.html] that follows a dot-free head. *)
Lemma replace_first_html a b :
  lacks "."%char a -> replace (a +:+ ".html" +:+ b) ".html" "" = a +:+ b.
Proof.
  induction a as [|c a IH]; intros Ha.
  - rewrite replace_eq, !app_empty_l, startsWith_app, slice_app. reflexivity.
  - destruct Ha as [Hc Ha]. rewrite (app_cons c a), replace_eq.
    rewrite (startsWith_other _ c "."%char "html" Hc). cbv iota.
    rewrite (IH Ha). reflexivity.
Qed.

Lemma pathOfUrl_mounted p :
  lacks "?"%char p -> startsWith p "/" = false -> pathOfUrl ("/api/" +:+ p) = p.
Proof.
  intros Hq Hs. unfold pathOfUrl. cbv zeta.
  rewrite (indexOf_lacks ("/api/" +:+ p) "?"%char).
  - simpl negb. cbv iota. rewrite startsWith_app.
    change 5%nat with (String.length "/api/"). rewrite slice_app, Hs. reflexivity.
  - apply lacks_app. split; [|exact Hq]. simpl. repeat split; discriminate.
Qed.

Lemma pathOfUrl_plain p :
  lacks "?"%char p -> startsWith p "api/" = false -> p <> "api" ->
  pathOfUrl ("/" +:+ p) = p.
Proof.
  intros Hq Hs Hp. unfold pathOfUrl. cbv zeta.
  rewrite (indexOf_lacks ("/" +:+ p) "?"%char).
  - simpl negb. cbv iota.
    change (startsWith ("/" +:+ p) "/api/") with (startsWith p "api/"). rewrite Hs.
    change (String.eqb ("/" +:+ p) "/api") with (String.eqb p "api").
    apply String.eqb_neq in Hp. rewrite Hp. reflexivity.
  - apply lacks_app. split; [|exact Hq]. simpl. repeat split; discriminate.
Qed.
End RouteFacts.

Module ExtensionFacts.
Import JsString StringFacts MoreStringFacts.

Lemma lastDot_app s t j :
  lastDot t = Some j -> lastDot (s +:+ t) = Some (String.length s + j)%nat.
Proof.
  intros Ht. induction s as [|a s IH]; [exact Ht|].
  rewrite app_cons. simpl. rewrite IH. reflexivity.
Qed.

Lemma lastDot_nonempty s j : lastDot s = Some j -> s <> "".
Proof. destruct s; [discriminate | discriminate]. Qed.

Lemma substring_nonempty a s n : substring (String a s) (S n) <> "".
Proof. discriminate. Qed.

(** What [extname] answers when it answers an extension [ext] (not empty):
    the name is a non-empty base followed by it. *)
Lemma extname_inv file ext :
  extname file = ext -> ext <> "" ->
  exists base, base <> "" /\ file = base +:+ ext
               /\ String.length base = (String.length file - String.length ext)%nat.
Proof.
  unfold extname. destruct (lastDot file) as [[|i]|] eqn:E; try congruence.
  destruct (String.eqb file ".."); [congruence|].
  intros Hs _. exists (substring file (S i)).
  pose proof (substring_slice file (S i)) as Hcut. rewrite Hs in Hcut.
  destruct file as [|a file]; [discriminate|].
  split; [discriminate|]. split; [symmetry; exact Hcut|].
  rewrite <- Hcut at 2. rewrite length_app. lia.
Qed.

Lemma extname_app base ext :
  base <> "" -> lastDot ext = Some 0%nat -> (2 <= String.length ext)%nat ->
  extname (base +:+ ext) = ext.
Proof.
  intros Hb Hd Hl. unfold extname. rewrite (lastDot_app base ext 0 Hd), Nat.add_0_r.
  destruct base as [|a base]; [congruence|]. simpl String.length.
  assert (String.eqb (String a base +:+ ext) ".." = false) as ->.
  { apply String.eqb_neq. intros Heq. apply (f_equal String.length) in Heq.
    rewrite length_app in Heq. simpl in Heq. lia. }
  change (S (String.length base)) with (String.length (String a base)).
  apply slice_app.
Qed.

Lemma html_is_not_hbs base : endsWith (base +:+ ".html") ".hbs" = false.
Proof.
  destruct (endsWith (base +:+ ".html") ".hbs") eqn:E; [|reflexivity].
  apply endsWith_inv in E as [pre Heq].
  assert (Hlen : (String.length base <= String.length pre)%nat).
  { apply (f_equal String.length) in Heq. rewrite !length_app in Heq. simpl in Heq. lia. }
  destruct (app_eq_app _ _ _ _ Heq Hlen) as (z & _ & Hz).
  destruct z as [|c [|d z]].
  - discriminate.
  - discriminate.
  - apply (f_equal String.length) in Hz. rewrite length_app in Hz. simpl in Hz. lia.
Qed.
End ExtensionFacts.

Module SectionFacts.
Import JsString StringFacts MoreStringFacts.

Lemma app_same_length a b x y :
  a +:+ b = x +:+ y -> String.length a = String.length x -> a = x /\ b = y.
Proof.
  intros Heq Hlen. destruct (app_eq_app a b x y Heq) as (z & Hx & Hb); [lia|].
  assert (z = "") as ->.
  { apply (f_equal String.length) in Hx. rewrite length_app in Hx.
    destruct z; [reflexivity | simpl in Hx; lia]. }
  rewrite app_empty_r in Hx. rewrite app_empty_l in Hb. auto.
Qed.

Lemma first_section_unique open close s m1 m2 :
  first_section open close s m1 -> first_section open close s m2 -> m1 = m2.
Proof.
  intros (pre1 & post1 & Hs1 & Hf1 & Hm1) (pre2 & post2 & Hs2 & Hf2 & Hm2).
  pose proof (Hf1 pre2 _ Hs2) as Hle1. pose proof (Hf2 pre1 _ Hs1) as Hle2.
  assert (Heq : pre1 +:+ open +:+ m1 +:+ close +:+ post1
                = pre2 +:+ open +:+ m2 +:+ close +:+ post2) by congruence.
  apply app_same_length in Heq as [_ Heq]; [|lia].
  apply app_same_length in Heq as [_ Heq]; [|reflexivity].
  pose proof (Hm1 m2 post2 Heq) as Hle3.
  pose proof (Hm2 m1 post1 (eq_sym Heq)) as Hle4.
  apply app_same_length in Heq as [Heq _]; [exact Heq | lia].
Qed.

(** The text between a marker and the first end marker after it does not
    hold that end marker. *)
Lemma first_section_no_close open close s m :
  close <> "" -> first_section open close s m -> ~ occurs close m.
Proof.
  intros Hc (pre & post & _ & _ & Hmin) (a & b & Hm).
  specialize (Hmin a (b +:+ close +:+ post)).
  rewrite Hm, !app_assoc in Hmin. specialize (Hmin eq_refl).
  rewrite !length_app in Hmin. destruct close; [congruence|]. simpl in Hmin. lia.
Qed.

Lemma occurs_inside pat l t r : occurs pat t -> occurs pat (l +:+ t +:+ r).
Proof.
  intros (a & b & ->). exists (l +:+ a), (b +:+ r). rewrite !app_assoc. reflexivity.
Qed.
End SectionFacts.

(** [replace] with a string pattern, as line 144 uses it: the first
    occurrence goes, the rest stays. *)
Module ReplaceFacts.
Import JsString StringFacts MoreStringFacts UrlFacts RouteFacts.

Lemma first_at_tail pat c s pre post :
  first_at pat (String c s) (String c pre) post -> first_at pat s pre post.
Proof.
  intros [Heq Hmin]. rewrite app_cons in Heq. injection Heq as Heq. split; [exact Heq|].
  intros pre2 post2 H2. specialize (Hmin (String c pre2) post2).
  rewrite app_cons, <- H2 in Hmin. specialize (Hmin eq_refl). simpl in Hmin. lia.
Qed.

(** [replace] puts [r] where the first [pat] stands. *)
Lemma replace_first_at pat r s pre post :
  first_at pat s pre post -> replace s pat r = pre +:+ r +:+ post.
Proof.
  revert s. induction pre as [|c pre IH]; intros s Hf.
  - destruct Hf as [-> _]. rewrite replace_eq, !app_empty_l, startsWith_app, slice_app.
    reflexivity.
  - pose proof Hf as [Heq Hmin]. rewrite app_cons in Heq. subst s.
    rewrite replace_eq.
    destruct (startsWith (String c (pre +:+ pat +:+ post)) pat) eqn:E.
    + apply startsWith_inv in E. specialize (Hmin "" _ E). simpl in Hmin. lia.
    + rewrite (IH _ (first_at_tail _ _ _ _ _ Hf)). reflexivity.
Qed.

(** [replace] leaves a string without [pat] as it is. *)
Lemma replace_absent pat r s : ~ occurs pat s -> replace s pat r = s.
Proof.
  induction s as [|c s IH]; intros Ho; rewrite replace_eq.
  - destruct (startsWith "" pat) eqn:E; [|reflexivity].
    exfalso. apply Ho. apply startsWith_inv in E. exists "". eexists. exact E.
  - destruct (startsWith (String c s) pat) eqn:E.
    + exfalso. apply Ho. apply startsWith_inv in E. exists "". eexists. exact E.
    + rewrite IH; [reflexivity|]. intros (pre & post & ->). apply Ho.
      exists (String c pre), post. reflexivity.
Qed.

Lemma first_at_of_indexOf pat s n :
  indexOf s pat = Z.of_nat n ->
  first_at pat s (substring s n) (slice s (n + String.length pat)).
Proof.
  revert n. induction s as [|c s IH]; intros n; rewrite indexOf_eq.
  - destruct (startsWith "" pat) eqn:E; [|lia]. intros Hn.
    assert (n = 0%nat) as -> by lia. split; [apply startsWith_inv, E | intros; simpl; lia].
  - destruct (startsWith (String c s) pat) eqn:E.
    + intros Hn. assert (n = 0%nat) as -> by lia.
      split; [apply startsWith_inv, E | intros; simpl; lia].
    + cbv zeta. pose proof (indexOf_lower s pat) as Hlow.
      destruct (indexOf s pat =? -1) eqn:Ei; [lia|]. apply Z.eqb_neq in Ei.
      intros Hn. destruct n as [|n]; [lia|].
      destruct (IH n) as [Heq Hmin]; [lia|]. split.
      * simpl. rewrite app_cons, <- Heq. reflexivity.
      * intros [|c2 pre2] post2 H2.
        -- rewrite app_empty_l in H2. rewrite H2, startsWith_app in E. discriminate.
        -- rewrite app_cons in H2. injection H2 as _ H2. apply Hmin in H2.
           assert (Hl : (String.length (substring (String c s) (S n))
                         = S (String.length (substring s n)))%nat) by reflexivity.
           rewrite Hl. simpl. lia.
Qed.

Lemma absent_of_indexOf pat s : indexOf s pat = -1 -> ~ occurs pat s.
Proof.
  induction s as [|c s IH]; rewrite indexOf_eq.
  - destruct (startsWith "" pat) eqn:E; [lia|]. intros _ ([|c pre] & post & Heq).
    + rewrite app_empty_l in Heq. rewrite Heq, startsWith_app in E. discriminate.
    + discriminate.
  - destruct (startsWith (String c s) pat) eqn:E; [lia|]. cbv zeta.
    pose proof (indexOf_lower s pat) as Hlow.
    destruct (indexOf s pat =? -1) eqn:Ei; [|lia]. apply Z.eqb_eq in Ei.
    intros _ ([|c2 pre] & post & Heq).
    + rewrite app_empty_l in Heq. rewrite Heq, startsWith_app in E. discriminate.
    + rewrite app_cons in Heq. injection Heq as _ Heq. apply (IH Ei).
      exists pre, post. exact Heq.
Qed.

(** Every string has its first [pat] removed in one way or the other. *)
Lemma without_first_replace pat s : without_first pat s (replace s pat "").
Proof.
  pose proof (indexOf_lower s pat) as Hlow.
  destruct (Z.eq_dec (indexOf s pat) (-1)) as [Hi | Hi].
  - right. apply absent_of_indexOf in Hi. split; [exact Hi | apply replace_absent, Hi].
  - left. pose proof (first_at_of_indexOf pat s (Z.to_nat (indexOf s pat))) as Hf.
    rewrite Z2Nat.id in Hf by lia. specialize (Hf eq_refl).
    eexists _, _. split; [exact Hf|]. rewrite (replace_first_at _ "" _ _ _ Hf).
    rewrite app_empty_l. reflexivity.
Qed.

Lemma first_at_unique pat s pre1 post1 pre2 post2 :
  first_at pat s pre1 post1 -> first_at pat s pre2 post2 -> pre1 = pre2 /\ post1 = post2.
Proof.
  intros [H1 M1] [H2 M2]. pose proof (M1 _ _ H2). pose proof (M2 _ _ H1).
  rewrite H1 in H2. apply SectionFacts.app_same_length in H2 as [-> H2]; [|lia].
  apply SectionFacts.app_same_length in H2 as [_ ->]; auto.
Qed.

Lemma without_first_unique pat s a b : without_first pat s a -> without_first pat s b -> a = b.
Proof.
  intros [(p1 & q1 & H1 & ->) | [N1 ->]] [(p2 & q2 & H2 & ->) | [N2 ->]].
  - destruct (first_at_unique _ _ _ _ _ _ H1 H2) as [-> ->]. reflexivity.
  - exfalso. apply N2. destruct H1 as [-> _]. eexists _, _. reflexivity.
  - exfalso. apply N1. destruct H2 as [-> _]. eexists _, _. reflexivity.
  - reflexivity.
Qed.
End ReplaceFacts.


(* ================================================================== *)
(** * Further facts about the pipeline *)
(* ================================================================== *)

(** Overlapping calls of [loadPartials], resumed in any order: what holds of
    every call and of the flag is kept by every turn of the event loop. *)
Section AnyOrder.
Context `{Platform}.
Variable files : list string.
Hypothesis Hdir : readdir partialsDir = inr files.
Let hbsFiles := filter (fun file => isPartialFile file = true) files.
Hypothesis Hread :
  Forall (fun file => exists content, readFile (join [partialsDir; file]) = inr content)
         hbsFiles.

Lemma call_ok_grows pc st st' : grows st st' -> call_ok hbsFiles pc st -> call_ok hbsFiles pc st'.
Proof.
  intros Hg. destruct pc as [| |file rest|]; simpl; auto.
  intros (before & Heq & Hb). exists before. auto.
Qed.

Lemma registered_registerPartial file st g :
  registered g st -> registered g (registerPartial (partialName file) (partial_content file) st).
Proof. unfold registered. simpl. intros Hg. apply elem_of_app. auto. Qed.

Lemma registered_new file st :
  registered file (registerPartial (partialName file) (partial_content file) st).
Proof. unfold registered. simpl. apply elem_of_app. right. apply list_elem_of_singleton. reflexivity. Qed.

Lemma next_file_ok before rest st :
  hbsFiles = before ++ rest ->
  (forall g, g ∈ before -> registered g st) ->
  let r := next_file rest st in
  call_ok hbsFiles r.1 r.2 /\ grows st r.2
  /\ (partialsLoaded r.2 = true ->
      partialsLoaded st = true \/ forall g, g ∈ hbsFiles -> registered g r.2).
Proof.
  intros Heq Hb. destruct rest as [|file rest]; simpl.
  - rewrite app_nil_r in Heq. split; [|split].
    + intros g Hg. rewrite Heq in Hg. apply (Hb g Hg).
    + intros g Hg. exact Hg.
    + intros _. right. intros g Hg. rewrite Heq in Hg. apply (Hb g Hg).
  - split; [|split]; auto.
    + exists before. auto.
    + intros g Hg. exact Hg.
Qed.

(** Resuming one call keeps what holds of it and of the shared state. *)
Lemma resume_step pc st :
  (partialsLoaded st = true -> forall g, g ∈ hbsFiles -> registered g st) ->
  call_ok hbsFiles pc st ->
  let r := loadPartials_resume pc st in
  call_ok hbsFiles r.1 r.2 /\ grows st r.2
  /\ (partialsLoaded r.2 = true -> forall g, g ∈ hbsFiles -> registered g r.2).
Proof.
  intros Hflag Hok. destruct pc as [| |file rest|]; simpl.
  - destruct (partialsLoaded st) eqn:E; simpl; repeat split; auto.
    + intros g Hg; exact Hg.
    + intros g Hg; exact Hg.
    + rewrite E. discriminate.
  - rewrite Hdir. fold hbsFiles.
    destruct (next_file_ok [] hbsFiles st eq_refl) as (Hc & Hgr & Hf).
    { intros g Hg. apply elem_of_nil in Hg. contradiction. }
    repeat split; auto. intros Hl. destruct (Hf Hl) as [Hl' | Hall]; [|exact Hall].
    intros g Hg. apply Hgr. apply (Hflag Hl' g Hg).
  - destruct Hok as (before & Heq & Hb).
    assert (Hfile : exists content, readFile (join [partialsDir; file]) = inr content).
    { apply (proj1 (Forall_forall _ _) Hread). rewrite Heq. apply elem_of_app. right. left. }
    destruct Hfile as [content Hc]. rewrite Hc.
    assert (Hcontent : content = partial_content file).
    { unfold partial_content. rewrite Hc. reflexivity. }
    rewrite Hcontent.
    set (st1 := registerPartial (partialName file) (partial_content file) st).
    assert (Hg1 : grows st st1) by (intros g; apply registered_registerPartial).
    destruct (next_file_ok (before ++ [file]) rest st1) as (Hcall & Hg & Hf).
    { rewrite Heq, <- app_assoc. reflexivity. }
    { intros g [Hg | Hg%list_elem_of_singleton]%elem_of_app.
      - apply Hg1, Hb, Hg.
      - subst g. apply registered_new. }
    repeat split; auto.
    + intros g Hg'. apply Hg, Hg1, Hg'.
    + intros Hl. destruct (Hf Hl) as [Hl' | Hall]; [|exact Hall].
      intros g Hg'. apply Hg, Hg1. apply (Hflag Hl' g Hg').
  - repeat split; auto. intros g Hg; exact Hg.
Qed.

Lemma resume_ok i sys : loop_ok hbsFiles sys -> loop_ok hbsFiles (resume i sys).
Proof.
  intros [Hflag Hcalls]. unfold resume.
  destruct (calls sys !! i) as [pc|] eqn:E; [|split; assumption].
  pose proof (resume_step pc (shared sys) Hflag (Forall_lookup_1 _ _ _ _ Hcalls E))
    as (Hpc & Hgrows & Hflag').
  destruct (loadPartials_resume pc (shared sys)) as [pc' st']. simpl in *.
  split; [exact Hflag'|].
  apply Forall_insert; [|exact Hpc].
  eapply Forall_impl; [exact Hcalls|]. intros pc0. apply call_ok_grows, Hgrows.
Qed.

Lemma run_ok order sys : loop_ok hbsFiles sys -> loop_ok hbsFiles (run order sys).
Proof.
  revert sys. induction order as [|i order IH]; intros sys Hsys; [exact Hsys|].
  apply (IH (resume i sys)), resume_ok, Hsys.
Qed.

Lemma simultaneous_ok n st : partialsLoaded st = false -> loop_ok hbsFiles (simultaneous n st).
Proof.
  intros Hflag. split; simpl.
  - rewrite Hflag. discriminate.
  - apply Forall_forall. intros pc Hpc. apply elem_of_replicate in Hpc as [-> _]. exact I.
Qed.
End AnyOrder.


(* ================================================================== *)
(** * Further properties *)
(* ================================================================== *)

(** ** Path resolution and [currentPath] *)

Section RouteProperties.
Import JsString StringFacts MoreStringFacts UrlFacts RouteFacts.

(** X1.  Whatever the request, the route the handler resolves ends in
    [.html] (lines 200-208): the file it reads is never an extension-less
    name. *)
Theorem X1_resolved_route_ends_in_html (req : request) :
  exists name, resolveRoutePath req = name +:+ ".html".
Proof.
  unfold resolveRoutePath. cbv zeta.
  match goal with |- context [String.eqb ?r ""] => set (routePath := r) end.
  destruct (String.eqb routePath ""); [exists "index"; reflexivity|].
  destruct (endsWith routePath ".html") eqn:E; simpl.
  - apply endsWith_inv in E. exact E.
  - exists routePath. reflexivity.
Qed.

(** X2.  What follows the first [?] of the URL plays no part in the choice
    of the route (lines 176-180). *)
Theorem X2_query_string_is_ignored
  (q : option (gmap string queryValue)) (h : gmap string string) (p search : string) :
  lacks "?"%char p ->
  resolveRoutePath (mkRequest q (Some (p +:+ "?" +:+ search)) h)
  = resolveRoutePath (mkRequest q (Some p) h).
Proof.
  intros Hp. unfold resolveRoutePath, catchAllSegments. simpl.
  destruct q as [qm|]; [destruct (qm !! "path") as [[s|[|s l]]|]|]; try reflexivity;
    rewrite (pathOfUrl_query p search Hp);
    (assert (String.eqb (p +:+ "?" +:+ search) "" = false) as ->
       by (destruct p; reflexivity));
    destruct p; reflexivity.
Qed.

(** X3.  When [query.path] is a non-empty array the route is made of its
    segments alone, joined by [/]: [index.html] if that is empty, else the
    joined path, with [.html] added unless it ends in it already.  [url],
    the headers and the other keys of the query play no part (lines
    168-171 and 200-208). *)
Theorem X3_catch_all_segments_win
  (q : gmap string queryValue) (s : string) (l : list string)
  (u : option string) (h : gmap string string) :
  q !! "path" = Some (QArray (s :: l)) ->
  resolveRoutePath (mkRequest (Some q) u h)
  = let joined := Array_join (s :: l) "/" in
    if String.eqb joined "" then "index.html"
    else if endsWith joined ".html" then joined
    else joined +:+ ".html".
Proof.
  intros Hq. unfold resolveRoutePath.
  assert (catchAllSegments (mkRequest (Some q) u h) = Some (s :: l)) as ->
    by (unfold catchAllSegments; simpl; rewrite Hq; reflexivity).
  cbv zeta. destruct (String.eqb _ ""); [reflexivity|].
  destruct (endsWith _ ".html"); reflexivity.
Qed.

(** X4.  The [/api] mount is transparent: [/api/p] and [/p] resolve to the
    same route (lines 182-193), [p] being a path without [?] that does not
    itself start with [/] or [api/] and is not [api]. *)
Theorem X4_api_mount_is_transparent
  (q : option (gmap string queryValue)) (h : gmap string string) (p : string) :
  lacks "?"%char p -> startsWith p "/" = false -> startsWith p "api/" = false -> p <> "api" ->
  resolveRoutePath (mkRequest q (Some ("/api/" +:+ p)) h)
  = resolveRoutePath (mkRequest q (Some ("/" +:+ p)) h).
Proof.
  intros Hq Hs Ha Hp. unfold resolveRoutePath. simpl.
  destruct (catchAllSegments _); [reflexivity|].
  change (String.eqb ("/api/" +:+ p) "") with false.
  change (String.eqb ("/" +:+ p) "") with false. simpl negb. cbv iota.
  rewrite (pathOfUrl_mounted p Hq Hs), (pathOfUrl_plain p Hq Ha Hp). reflexivity.
Qed.

(** X6.  [currentPath] is [/] followed by the route path without its
    first [.html], wherever that stands, and by the route path as it is when
    it holds no [.html]; it is [/] alone when what remains is [index].
    Only the first [.html] goes: what stands before and after it is kept,
    dots and further [.html] included (line 144 uses [replace] with a string
    pattern; lines 145-147).  What remains is determined by the route. *)
Theorem X6_currentPath_drops_first_html (routePath : string) :
  exists rest,
    without_first ".html" routePath rest
    /\ (forall rest', without_first ".html" routePath rest' -> rest' = rest)
    /\ currentPath_of routePath
       = if String.eqb rest "index" then "/" else "/" +:+ rest.
Proof.
  pose proof (ReplaceFacts.without_first_replace ".html" routePath) as Hw.
  exists (replace routePath ".html" ""). split; [exact Hw|]. split.
  - intros rest' Hr. exact (ReplaceFacts.without_first_unique _ _ _ _ Hr Hw).
  - reflexivity.
Qed.

(** X5.  For a request of [/name], [name] a plain name (no [?], no dot,
    no [api/] prefix, not [api]), the route is [name.html] and the
    [currentPath] computed from that route is the requested path again,
    [/index] becoming [/] (lines 144-147 after lines 166-208). *)
Theorem X5_currentPath_is_the_requested_path (req : request) (name : string) :
  catchAllSegments req = None ->
  url req = Some ("/" +:+ name) ->
  name <> "" -> lacks "?"%char name -> lacks "."%char name ->
  startsWith name "api/" = false -> name <> "api" ->
  resolveRoutePath req = name +:+ ".html"
  /\ currentPath_of (resolveRoutePath req)
     = if String.eqb name "index" then "/" else "/" +:+ name.
Proof.
  intros Hc Hu Hne Hq Hd Ha Hp.
  assert (Hr : resolveRoutePath req = name +:+ ".html").
  { unfold resolveRoutePath. rewrite Hc, Hu.
    change (String.eqb ("/" +:+ name) "") with false. simpl negb. cbv iota zeta.
    rewrite (pathOfUrl_plain name Hq Ha Hp).
    apply String.eqb_neq in Hne. rewrite Hne, (lacks_dot_not_html name Hd). reflexivity. }
  split; [exact Hr|]. rewrite Hr.
  unfold currentPath_of. cbv zeta.
  rewrite <- (app_empty_r (name +:+ ".html")), app_assoc.
  rewrite (replace_first_html name "" Hd), app_empty_r. reflexivity.
Qed.

(** X19.  The resolution copies the path of the URL as it is: [/name]
    resolves to [name.html] for every non-empty [name] without [?] that does
    not end in [.html] and is neither [api] nor under [api/]; dots and [..]
    segments are kept (nothing in lines 166-208 normalises the path). *)
Theorem X19_route_is_the_path_as_written (req : request) (name : string) :
  catchAllSegments req = None ->
  url req = Some ("/" +:+ name) ->
  name <> "" -> lacks "?"%char name ->
  JsString.startsWith name "api/" = false -> name <> "api" ->
  JsString.endsWith name ".html" = false ->
  resolveRoutePath req = name +:+ ".html".
Proof.
  intros Hc Hu Hne Hq Ha Hp He.
  unfold resolveRoutePath. rewrite Hc, Hu.
  change (String.eqb ("/" +:+ name) "") with false. simpl negb. cbv iota zeta.
  rewrite (RouteFacts.pathOfUrl_plain name Hq Ha Hp).
  apply String.eqb_neq in Hne. rewrite Hne, He. reflexivity.
Qed.
End RouteProperties.

(** ** The parser *)

Section ParserProperties.
Import JsString StringFacts MoreStringFacts SectionFacts.

(** X17.  The result of [parseRouteFile] is determined by the two first
    sections: when [s] stands between the first [<script>] and the first
    [</script>] after it, and [t] likewise for the template markers, the
    result is [s] and [t] trimmed, whatever else the file holds and in
    whatever order the sections come. *)
Theorem X17_parse_is_determined_by_the_first_sections (content s t : string) :
  first_section "<script>" "</script>" content s ->
  first_section "<template>" "</template>" content t ->
  parseRouteFile content = inr {| script := trim s; template := trim t |}.
Proof.
  intros Hs Ht.
  assert (Hps : has_pair "<script>" "</script>" content).
  { destruct Hs as (pre & post & -> & _). exists pre, s, post. reflexivity. }
  assert (Hpt : has_pair "<template>" "</template>" content).
  { destruct Ht as (pre & post & -> & _). exists pre, t, post. reflexivity. }
  apply RegexFacts.match_between_complete in Hps as [s' Hs'].
  apply RegexFacts.match_between_complete in Hpt as [t' Ht'].
  unfold parseRouteFile. rewrite Hs', Ht'.
  apply RegexFacts.match_between_sound in Hs', Ht'.
  rewrite (first_section_unique _ _ _ _ _ Hs' Hs), (first_section_unique _ _ _ _ _ Ht' Ht).
  reflexivity.
Qed.

(** X18.  A parsed script never holds [</script>] and a parsed template
    never holds [</template>]: each section ends at the first end marker
    (the groups of lines 21-22 are lazy). *)
Theorem X18_parsed_sections_hold_no_end_marker (content : string) (parsed : routeFile) :
  parseRouteFile content = inr parsed ->
  ~ occurs "</script>" (script parsed) /\ ~ occurs "</template>" (template parsed).
Proof.
  unfold parseRouteFile.
  destruct (Regex.match_between "<script>" _ content) as [s|] eqn:Hs; [|discriminate].
  destruct (Regex.match_between "<template>" _ content) as [t|] eqn:Ht; [|discriminate].
  intros [= <-]. simpl.
  apply RegexFacts.match_between_sound in Hs, Ht.
  destruct (TrimFacts.trim_is_trim s) as [(ls & rs & Hts & _) _].
  destruct (TrimFacts.trim_is_trim t) as [(lt & rt & Htt & _) _].
  split; intros Ho.
  - apply (first_section_no_close "<script>" "</script>" content s); [discriminate | exact Hs |].
    rewrite Hts. apply occurs_inside, Ho.
  - apply (first_section_no_close "<template>" "</template>" content t);
      [discriminate | exact Ht |].
    rewrite Htt. apply occurs_inside, Ho.
Qed.
End ParserProperties.

(** ** Partial files *)

Section ExtensionProperties.
Import JsString StringFacts MoreStringFacts ExtensionFacts.

(** X13.  The files [loadPartials] takes for partials (line 90) are the
    names made of a non-empty base followed by [.hbs] or [.html]; [.hbs]
    and [.html] alone are not. *)
Theorem X13_partial_files_are_hbs_and_html (file : string) :
  isPartialFile file = true
  <-> exists base, base <> "" /\ (file = base +:+ ".hbs" \/ file = base +:+ ".html").
Proof.
  unfold isPartialFile. rewrite orb_true_iff, !String.eqb_eq. split.
  - intros [He | He]; apply extname_inv in He as (base & Hb & Hf & _);
      try discriminate; eauto.
  - intros (base & Hb & [-> | ->]); [left | right]; apply extname_app; auto; simpl; lia.
Qed.

(** X14.  The name a partial is registered under (line 97) is the file name
    without its extension: [base.hbs] and [base.html] are both registered as
    [base]. *)
Theorem X14_partialName_strips_the_extension (base : string) :
  partialName (base +:+ ".hbs") = base /\ partialName (base +:+ ".html") = base.
Proof.
  unfold partialName. split.
  - rewrite endsWith_app, length_app. simpl String.length.
    replace (String.length base + 4 - 4)%nat with (String.length base) by lia.
    apply substring_app.
  - rewrite html_is_not_hbs, endsWith_app, length_app. simpl String.length.
    replace (String.length base + 5 - 5)%nat with (String.length base) by lia.
    apply substring_app.
Qed.
End ExtensionProperties.

(** ** The handler and the loading of partials *)

Section HandlerFacts.
Context `{Platform}.

(** How a call of [renderRoute] ends: rejected with an error that names the
    route, or never settled because the script never does. *)
Lemma renderRoute_outcome routePath req st :
  (exists m, renderRoute routePath req st
             = (Rejected (Error ("Failed to render route " +:+ routePath +:+ ": " +:+ m)), st))
  \/ (renderRoute routePath req st = (Pending, st)
      /\ exists content parsed,
           readFile (join [cwd; "routes"; routePath]) = inr content
           /\ parseRouteFile content = inr parsed
           /\ run_Function (functionBody (script parsed)) req = NeverSettles).
Proof.
  unfold renderRoute, renderRoute_declared, try_catch, bind.
  destruct (readFile _) as [e|content] eqn:Hread; simpl; [left; eauto|].
  destruct (parseRouteFile content) as [e|parsed] eqn:Hparse; simpl; [left; eauto|].
  unfold executeScript, executeScript_catch.
  destruct (run_Function _ _) as [e|r ex|error|] eqn:Hrun; simpl.
  - left; eauto.
  - left; eauto.
  - destruct (message_of error); simpl; left; eauto.
  - right. split; [reflexivity|]. eauto.
Qed.

(** X7.  Every response the handler writes has status 500 and content
    type [text/plain; charset=utf-8]; its body is [Error: Failed to render
    route ], the resolved route, [: ] and a message; the module state is left
    as it was.  (Line 149 throws on every route that gets that far.) *)
Theorem X7_every_response_is_a_500 (req : request) (st st' : state) (r : response) :
  handler req st = (Some r, st') ->
  st' = st
  /\ statusCode r = 500
  /\ contentType r = "text/plain; charset=utf-8"
  /\ exists m, body r = "Error: Failed to render route " +:+ resolveRoutePath req
                        +:+ ": " +:+ m.
Proof.
  unfold handler, handler_declared. cbv zeta.
  fold (renderRoute (resolveRoutePath req) (Some req) st).
  destruct (renderRoute_outcome (resolveRoutePath req) (Some req) st)
    as [[m ->] | [-> _]]; simpl; [|discriminate].
  intros [= <- <-]. repeat split. exists m. reflexivity.
Qed.

(** X8.  The handler writes no response at all exactly when the route file
    is read and parsed and its script never settles (line 67 awaits it
    without a timeout). *)
Theorem X8_no_response_only_for_a_pending_script (req : request) (st : state) :
  (handler req st).1 = None
  <-> exists content parsed,
        readFile (join [cwd; "routes"; resolveRoutePath req]) = inr content
        /\ parseRouteFile content = inr parsed
        /\ run_Function (functionBody (script parsed)) (Some req) = NeverSettles.
Proof.
  unfold handler, handler_declared. cbv zeta.
  fold (renderRoute (resolveRoutePath req) (Some req) st).
  split.
  - destruct (renderRoute_outcome (resolveRoutePath req) (Some req) st)
      as [[m ->] | [-> Hex]]; simpl; [discriminate | auto].
  - intros (content & parsed & Hread & Hparse & Hrun).
    unfold renderRoute, renderRoute_declared, try_catch, bind.
    rewrite Hread. simpl. rewrite Hparse. simpl.
    unfold executeScript. rewrite Hrun. reflexivity.
Qed.
End HandlerFacts.

Section PartialsFacts.
Context `{Platform}.

Lemma partials_catch_loaded e st : partialsLoaded (partials_catch e st) = true.
Proof. reflexivity. Qed.

Lemma registerAll_loaded hbsFiles st : partialsLoaded (registerAll hbsFiles st) = true.
Proof.
  revert st. induction hbsFiles as [|file rest IH]; intros st; simpl; [reflexivity|].
  destruct (readFile _); [reflexivity | apply IH].
Qed.

Lemma loadPartials_fulfils st :
  exists st', loadPartials st = (Fulfilled tt, st') /\ partialsLoaded st' = true.
Proof.
  unfold loadPartials. destruct (partialsLoaded st) eqn:E; [eauto|].
  destruct (readdir partialsDir) as [e|files]; eexists; split; try reflexivity.
  apply registerAll_loaded.
Qed.

(** X9.  [loadPartials] always fulfils and always leaves [partialsLoaded]
    set, whatever the file system answers; called again it changes
    nothing. *)
Theorem X9_loadPartials_loads_once (st : state) :
  exists st',
    loadPartials st = (Fulfilled tt, st')
    /\ partialsLoaded st' = true
    /\ loadPartials st' = (Fulfilled tt, st').
Proof.
  destruct (loadPartials_fulfils st) as (st' & Hl & Hflag).
  exists st'. repeat split; try assumption.
  unfold loadPartials. rewrite Hflag. reflexivity.
Qed.

(** X10.  A partials directory that cannot be listed is no error:
    [loadPartials] fulfils, registers nothing and sets [partialsLoaded]; it
    warns, once, unless the error code is [ENOENT] (lines 102-108). *)
Theorem X10_unreadable_directory_is_not_an_error (st : state) (e : JsError) :
  partialsLoaded st = false ->
  readdir partialsDir = inl e ->
  loadPartials st =
    (Fulfilled tt,
     mkState true (registerPartial_calls st)
       (if bool_decide (code e = Some "ENOENT") then warnings st
        else warnings st ++ ["Warning: Could not load partials: " +:+ message e])).
Proof.
  intros Hflag Hdir. unfold loadPartials. rewrite Hflag, Hdir.
  unfold partials_catch. destruct (bool_decide _); reflexivity.
Qed.

Lemma registerAll_readable hbsFiles st :
  Forall (fun file => exists content, readFile (join [partialsDir; file]) = inr content)
         hbsFiles ->
  registerAll hbsFiles st =
    mkState true
      (registerPartial_calls st
       ++ map (fun file => (partialName file, partial_content file)) hbsFiles)
      (warnings st).
Proof.
  revert st. induction hbsFiles as [|file rest IH]; intros st Hall; simpl.
  - rewrite app_nil_r. reflexivity.
  - inversion Hall as [|? ? [content Hc] Hrest]; subst.
    rewrite Hc, (IH _ Hrest). simpl. rewrite <- app_assoc. simpl.
    unfold partial_content at 2. rewrite Hc. reflexivity.
Qed.

(** X11.  When the directory can be listed and its partial files read,
    [loadPartials] registers exactly the files with extension [.hbs] or
    [.html], in the order of the listing, each under its name without the
    extension and with its content; it warns of nothing. *)
Theorem X11_loadPartials_registers_the_partial_files (st : state) (files : list string) :
  partialsLoaded st = false ->
  readdir partialsDir = inr files ->
  Forall (fun file => exists content, readFile (join [partialsDir; file]) = inr content)
         (filter (fun file => isPartialFile file = true) files) ->
  loadPartials st =
    (Fulfilled tt,
     mkState true
       (registerPartial_calls st
        ++ map (fun file => (partialName file, partial_content file))
               (filter (fun file => isPartialFile file = true) files))
       (warnings st)).
Proof.
  intros Hflag Hdir Hall. unfold loadPartials. rewrite Hflag, Hdir.
  rewrite (registerAll_readable _ st Hall). reflexivity.
Qed.

Lemma registerAll_app before after st :
  Forall (fun file => exists content, readFile (join [partialsDir; file]) = inr content)
         before ->
  registerAll (before ++ after) st =
    registerAll after
      (mkState (partialsLoaded st)
         (registerPartial_calls st
          ++ map (fun file => (partialName file, partial_content file)) before)
         (warnings st)).
Proof.
  revert st. induction before as [|file rest IH]; intros st Hall; simpl.
  - rewrite app_nil_r. destruct st; reflexivity.
  - inversion Hall as [|? ? [content Hc] Hrest]; subst.
    rewrite Hc, (IH _ Hrest). simpl. rewrite <- app_assoc. simpl.
    unfold partial_content at 2. rewrite Hc. reflexivity.
Qed.

(** X12.  When a partial file cannot be read, the partials before it stay
    registered, it and the ones after it are not registered, and
    [partialsLoaded] is set all the same: they are not loaded later
    either. *)
Theorem X12_failed_read_stops_the_loading
  (st : state) (files before after : list string) (file : string) (e : JsError) :
  partialsLoaded st = false ->
  readdir partialsDir = inr files ->
  filter (fun file => isPartialFile file = true) files = before ++ file :: after ->
  Forall (fun file => exists content, readFile (join [partialsDir; file]) = inr content)
         before ->
  readFile (join [partialsDir; file]) = inl e ->
  loadPartials st =
    (Fulfilled tt,
     mkState true
       (registerPartial_calls st
        ++ map (fun file => (partialName file, partial_content file)) before)
       (if bool_decide (code e = Some "ENOENT") then warnings st
        else warnings st ++ ["Warning: Could not load partials: " +:+ message e])).
Proof.
  intros Hflag Hdir Hfiles Hall Hfail. unfold loadPartials. rewrite Hflag, Hdir, Hfiles.
  rewrite (registerAll_app before (file :: after) st Hall). simpl. rewrite Hfail.
  unfold partials_catch. destruct (bool_decide _); reflexivity.
Qed.

(** X16.  [renderTemplate] first loads the partials and then rejects only
    if Handlebars does: a failure to load partials never fails the render.
    The template is compiled under the partials registered by then, and
    [partialsLoaded] is set afterwards. *)
Theorem X16_renderTemplate_fails_only_with_Handlebars
  (templateSource : string) (data : gmap string jsval) (st : state) :
  exists st',
    loadPartials st = (Fulfilled tt, st')
    /\ partialsLoaded st' = true
    /\ renderTemplate templateSource data st
       = (match Handlebars_compile (registerPartial_calls st') templateSource data with
          | inr html => Fulfilled html
          | inl e => Rejected e
          end, st').
Proof.
  destruct (loadPartials_fulfils st) as (st' & Hl & Hflag).
  exists st'. repeat split; try assumption.
  unfold renderTemplate, bind. rewrite Hl.
  destruct (Handlebars_compile _ _ _); reflexivity.
Qed.
End PartialsFacts.

(** X15.  However the event loop interleaves [n] overlapping calls of
    [loadPartials] (the directory and its partial files being readable), a
    call that has returned finds every partial registered: the flag is set
    only after a complete pass. *)
Theorem X15_returned_call_finds_every_partial `{Platform}
  (files : list string) (order : list nat) (n i : nat) (st : state) (file : string) :
  partialsLoaded st = false ->
  readdir partialsDir = inr files ->
  Forall (fun file => exists content, readFile (join [partialsDir; file]) = inr content)
         (filter (fun file => isPartialFile file = true) files) ->
  calls (run order (simultaneous n st)) !! i = Some Returned ->
  file ∈ filter (fun file => isPartialFile file = true) files ->
  registered file (shared (run order (simultaneous n st))).
Proof.
  intros Hflag Hdir Hread Hi Hfile.
  destruct (run_ok files Hdir Hread order _ (simultaneous_ok files n st Hflag)) as [_ Hcalls].
  apply (Forall_lookup_1 _ _ _ _ Hcalls Hi). exact Hfile.
Qed.


(* ================================================================== *)
(** * The further properties on concrete platforms *)
(* ================================================================== *)

Module Further.
Import Reference Fixture.

Lemma X2_query_string_is_ignored_witness :
  lacks "?"%char "/about"
  /\ resolveRoutePath (mkRequest None (Some "/about?x=1&y=2") ∅)
     = resolveRoutePath (mkRequest None (Some "/about") ∅).
Proof.
  assert (Hp : lacks "?"%char "/about") by (simpl; repeat split; discriminate).
  split; [exact Hp|].
  exact (X2_query_string_is_ignored None ∅ "/about" "x=1&y=2" Hp).
Defined.

Lemma X3_catch_all_segments_win_witness :
  resolveRoutePath
    (mkRequest (Some (<["page" := QString "evil"]> {["path" := QArray ["blog"; "post"]]}))
               (Some "/other?x=1") ∅)
  = "blog/post.html".
Proof.
  apply (X3_catch_all_segments_win
           (<["page" := QString "evil"]> {["path" := QArray ["blog"; "post"]]})
           "blog" ["post"]).
  reflexivity.
Defined.

Lemma X4_api_mount_is_transparent_witness :
  resolveRoutePath (GET "/api/about") = resolveRoutePath (GET "/about").
Proof.
  apply (X4_api_mount_is_transparent None ∅ "about").
  - simpl. repeat split; discriminate.
  - reflexivity.
  - reflexivity.
  - discriminate.
Defined.

Lemma X5_currentPath_is_the_requested_path_witness :
  resolveRoutePath (GET "/blog/post") = "blog/post.html"
  /\ currentPath_of (resolveRoutePath (GET "/blog/post")) = "/blog/post".
Proof.
  apply (X5_currentPath_is_the_requested_path (GET "/blog/post") "blog/post").
  - reflexivity.
  - reflexivity.
  - discriminate.
  - simpl. repeat split; discriminate.
  - simpl. repeat split; discriminate.
  - reflexivity.
  - discriminate.
Defined.

Lemma X6_currentPath_drops_first_html_witness :
  currentPath_of "v1.2.html/my.page.html" = "/v1.2/my.page.html".
Proof.
  destruct (X6_currentPath_drops_first_html "v1.2.html/my.page.html")
    as (rest & _ & Hu & ->).
  rewrite <- (Hu "v1.2/my.page.html"); [reflexivity|].
  left. exists "v1.2", "/my.page.html". split; [|reflexivity].
  exact (ReplaceFacts.first_at_of_indexOf ".html" "v1.2.html/my.page.html" 4 eq_refl).
Defined.

Lemma X19_route_is_the_path_as_written_witness :
  resolveRoutePath (GET "/../secret") = "../secret.html".
Proof.
  apply (X19_route_is_the_path_as_written (GET "/../secret") "../secret").
  - reflexivity.
  - reflexivity.
  - discriminate.
  - simpl. repeat split; discriminate.
  - reflexivity.
  - discriminate.
  - reflexivity.
Defined.

Lemma X7_every_response_is_a_500_witness :
  handler (GET "/hi") initial
  = (Some {| contentType := "text/plain; charset=utf-8"; statusCode := 500;
             body := "Error: Failed to render route hi.html: Assignment to constant variable." |},
     initial)
  /\ exists m, "Error: Failed to render route hi.html: Assignment to constant variable."
               = "Error: Failed to render route " +:+ resolveRoutePath (GET "/hi") +:+ ": " +:+ m.
Proof.
  assert (Hh : handler (GET "/hi") initial
               = (Some {| contentType := "text/plain; charset=utf-8"; statusCode := 500;
                          body := "Error: Failed to render route hi.html: Assignment to constant variable." |},
                  initial)).
  { vm_compute. reflexivity. }
  split; [exact Hh|].
  exact (proj2 (proj2 (proj2 (X7_every_response_is_a_500 _ _ _ _ Hh)))).
Defined.

Lemma X8_no_response_only_for_a_pending_script_witness :
  (@handler stalled (GET "/wait") initial).1 = None.
Proof.
  apply (proj2 (@X8_no_response_only_for_a_pending_script stalled (GET "/wait") initial)).
  exists "<script>await new Promise(() => {});</script><template>x</template>",
         {| script := "await new Promise(() => {});"; template := "x" |}.
  repeat split; vm_compute; reflexivity.
Defined.

Lemma X10_unreadable_directory_is_not_an_error_witness :
  @loadPartials locked initial
  = (Fulfilled tt,
     mkState true []
       ["Warning: Could not load partials: EACCES: permission denied, scandir '/srv/partials'"]).
Proof.
  exact (@X10_unreadable_directory_is_not_an_error locked initial
           (EACCES "scandir" "/srv/partials") eq_refl eq_refl).
Defined.

(** The same without a directory: no warning. *)
Lemma missing_directory_is_silent :
  @loadPartials bare initial = (Fulfilled tt, mkState true [] []).
Proof. vm_compute. reflexivity. Qed.

Lemma X11_loadPartials_registers_the_partial_files_witness :
  readdir partialsDir = inr ["menu.hbs"; "notes.txt"]
  /\ loadPartials initial = (Fulfilled tt, mkState true [("menu", "<nav>menu</nav>")] []).
Proof.
  split; [reflexivity|].
  assert (Hread : Forall (fun file => exists content,
                            readFile (join [partialsDir; file]) = inr content)
                         (filter (fun file => isPartialFile file = true)
                                 ["menu.hbs"; "notes.txt"])).
  { repeat constructor. exists "<nav>menu</nav>". reflexivity. }
  exact (@X11_loadPartials_registers_the_partial_files platform initial
           ["menu.hbs"; "notes.txt"]
           eq_refl eq_refl Hread).
Defined.

Lemma X12_failed_read_stops_the_loading_witness :
  @loadPartials damaged initial
  = (Fulfilled tt,
     mkState true [("a", "<a>")]
       ["Warning: Could not load partials: EACCES: permission denied, open '/srv/partials/b.hbs'"]).
Proof.
  assert (Hread : Forall (fun file => exists content,
                            @readFile damaged (@join damaged [@partialsDir damaged; file])
                            = inr content)
                         ["a.hbs"]).
  { repeat constructor. exists "<a>". reflexivity. }
  exact (@X12_failed_read_stops_the_loading damaged initial ["a.hbs"; "b.hbs"; "c.html"]
           ["a.hbs"] ["c.html"] "b.hbs" (EACCES "open" "/srv/partials/b.hbs")
           eq_refl eq_refl eq_refl Hread eq_refl).
Defined.

Lemma X13_partial_files_are_hbs_and_html_witness :
  isPartialFile "menu.hbs" = true /\ ~ isPartialFile ".hbs" = true.
Proof.
  split.
  - apply (proj2 (X13_partial_files_are_hbs_and_html "menu.hbs")).
    exists "menu". split; [discriminate | left; reflexivity].
  - discriminate.
Defined.

Lemma X15_returned_call_finds_every_partial_witness :
  calls (run [0; 1; 0; 0; 1]%nat (simultaneous 2 initial)) !! 0%nat = Some Returned
  /\ registered "menu.hbs" (shared (run [0; 1; 0; 0; 1]%nat (simultaneous 2 initial))).
Proof.
  split; [reflexivity|].
  assert (Hread : Forall (fun file => exists content,
                            readFile (join [partialsDir; file]) = inr content)
                         (filter (fun file => isPartialFile file = true)
                                 ["menu.hbs"; "notes.txt"])).
  { repeat constructor. exists "<nav>menu</nav>". reflexivity. }
  apply (@X15_returned_call_finds_every_partial platform ["menu.hbs"; "notes.txt"]
           [0; 1; 0; 0; 1]%nat 2 0 initial "menu.hbs" eq_refl eq_refl Hread eq_refl).
  vm_compute. left.
Defined.

Lemma X17_parse_is_determined_by_the_first_sections_witness :
  parseRouteFile hi_html
  = inr {| script := JsString.trim "exports.title = 'Hi';";
           template := JsString.trim "<h1>{{title}}</h1>" |}.
Proof.
  apply X17_parse_is_determined_by_the_first_sections;
    apply RegexFacts.match_between_sound; reflexivity.
Defined.

Lemma X18_parsed_sections_hold_no_end_marker_witness :
  ~ occurs "</script>" "exports.title = 'Hi';" /\ ~ occurs "</template>" "<h1>{{title}}</h1>".
Proof.
  exact (X18_parsed_sections_hold_no_end_marker hi_html
           {| script := "exports.title = 'Hi';"; template := "<h1>{{title}}</h1>" |} eq_refl).
Defined.

End Further.
